(** * PhaseNet (seisbench/models/phasenet.py): a shallow embedding

    The development follows the source file top to bottom:

    - [torch]: the tensor operations of the deep-learning framework that the
      model calls ([nn.Conv1d], [nn.ConvTranspose1d], [nn.BatchNorm1d],
      [torch.relu], [torch.cat], [nn.Softmax]), with their shape checks;
    - [Conv1dSame]: the "same"-padding convolution (lines 10-39);
    - [PhaseNet]: the network ([__init__], [forward], lines 42-124), the
      window pre- and post-processing (lines 126-136) and the pick
      extraction [classify_aggregate] (lines 138-164).

    Numbers that the source holds in floating point are real numbers here;
    [np64] repeats the window preprocessing in binary64 arithmetic, to show
    where rounding departs from the real result.
    A tensor is one sample of a batch: the batch axis, which every layer of
    the network carries through pointwise in inference mode, is left out, so
    the axes are (channels, time). *)

From Stdlib Require Import PrimFloat.
From Stdlib Require Import Reals Lra Lia ZArith List String.
From stdpp Require Import gmap strings list fin_maps sorting.

Local Open Scope Z_scope.

(** ** Finite sums of reals *)

(** [big_sum n f] is [f 0 + ... + f (n-1)]. *)
Fixpoint big_sum (n : nat) (f : nat -> R) : R :=
  match n with
  | O => 0%R
  | S n' => (big_sum n' f + f n')%R
  end.

(** ** The framework's tensors and layers *)

Module torch.

(** A tensor of shape (channels, time): its shape and its entries. Entries
    outside the shape are never read by the operations below. *)
Record Tensor := mkTensor {
  shape : nat * nat;
  entry : nat -> nat -> R
}.

Definition n_channels (x : Tensor) : nat := fst (shape x).
Definition n_samples (x : Tensor) : nat := snd (shape x).

(** [torch.relu] *)
Definition relu (x : Tensor) : Tensor :=
  mkTensor (shape x) (fun c t => Rmax 0 (entry x c t)).

(** [torch.cat([a, b], dim=1)]: the channels of [a], then those of [b]; the
    time axes must agree. *)
Definition cat (a b : Tensor) : option Tensor :=
  if (n_samples a =? n_samples b)%nat then
    Some (mkTensor ((n_channels a + n_channels b)%nat, n_samples a)
            (fun c t => if (c <? n_channels a)%nat then entry a c t
                        else entry b (c - n_channels a)%nat t))
  else None.

(** The learned parameters of a convolution: [weight] and [bias]. *)
Record ConvParams := mkConvParams {
  weight : nat -> nat -> nat -> R;
  bias : nat -> R
}.

(** The buffers and parameters of a batch normalisation in inference mode. *)
Record NormParams := mkNormParams {
  gamma : nat -> R;
  beta : nat -> R;
  running_mean : nat -> R;
  running_var : nat -> R;
  eps : R
}.

(** [nn.Conv1d(in_channels, out_channels, kernel_size, stride, padding,
    dilation)] *)
Module Conv1d.

Record t := mk {
  in_channels : nat;
  out_channels : nat;
  kernel_size : Z;
  stride : Z;
  padding : Z;
  dilation : Z;
  params : ConvParams
}.

(** The shape of the output, or [None] where the framework raises: wrong
    channel count, negative padding, non-positive stride, dilation or kernel
    size, or a padded input shorter than the dilated kernel. The length is
    [floor((L + 2*padding - dilation*(kernel_size-1) - 1) / stride) + 1]. *)
Definition out_shape (m : t) (s : nat * nat) : option (nat * nat) :=
  let L := Z.of_nat (snd s) in
  let span := dilation m * (kernel_size m - 1) + 1 in
  if negb (fst s =? in_channels m)%nat then None
  else if (padding m <? 0) || (stride m <=? 0) || (dilation m <=? 0)
          || (kernel_size m <=? 0) then None
  else if L + 2 * padding m <? span then None
  else Some (out_channels m,
             Z.to_nat ((L + 2 * padding m - span) / stride m + 1)).

(** The input read at position [i] of the zero-padded time axis. *)
Definition padded (x : Tensor) (p : Z) (c : nat) (i : Z) : R :=
  let i' := i - p in
  if (0 <=? i') && (i' <? Z.of_nat (n_samples x))
  then entry x c (Z.to_nat i') else 0%R.

Definition values (m : t) (x : Tensor) (o tm : nat) : R :=
  (bias (params m) o +
   big_sum (in_channels m) (fun c =>
     big_sum (Z.to_nat (kernel_size m)) (fun j =>
       weight (params m) o c j *
       padded x (padding m) c
         (Z.of_nat tm * stride m + Z.of_nat j * dilation m))))%R.

Definition forward (m : t) (x : Tensor) : option Tensor :=
  s ← out_shape m (shape x); Some (mkTensor s (values m x)).

End Conv1d.

(** [nn.ConvTranspose1d(in_channels, out_channels, kernel_size, stride,
    padding, output_padding)], dilation 1 *)
Module ConvTranspose1d.

Record t := mk {
  in_channels : nat;
  out_channels : nat;
  kernel_size : Z;
  stride : Z;
  padding : Z;
  output_padding : Z;
  params : ConvParams
}.

(** The output length is
    [(L - 1)*stride - 2*padding + (kernel_size - 1) + output_padding + 1];
    the framework raises on a wrong channel count, on a negative padding, a
    non-positive stride or kernel size, on an output padding that is not
    smaller than the stride, and when the output would be empty. *)
Definition out_shape (m : t) (s : nat * nat) : option (nat * nat) :=
  let L := Z.of_nat (snd s) in
  let Lout := (L - 1) * stride m - 2 * padding m + (kernel_size m - 1)
              + output_padding m + 1 in
  if negb (fst s =? in_channels m)%nat then None
  else if (padding m <? 0) || (stride m <=? 0) || (kernel_size m <=? 0)
          || (output_padding m <? 0) then None
  else if negb (output_padding m <? Z.max (stride m) 1) then None
  else if Lout <=? 0 then None
  else Some (out_channels m, Z.to_nat Lout).

(** Input position [i] reaches output position [i*stride - padding + j]
    through kernel tap [j]. *)
Definition tap (m : t) (x : Tensor) (c : nat) (tm j : nat) : R :=
  let n := Z.of_nat tm + padding m - Z.of_nat j in
  if (0 <=? n) && (n mod stride m =? 0)
     && (n / stride m <? Z.of_nat (n_samples x))
  then entry x c (Z.to_nat (n / stride m)) else 0%R.

Definition values (m : t) (x : Tensor) (o tm : nat) : R :=
  (bias (params m) o +
   big_sum (in_channels m) (fun c =>
     big_sum (Z.to_nat (kernel_size m)) (fun j =>
       weight (params m) c o j * tap m x c tm j)))%R.

Definition forward (m : t) (x : Tensor) : option Tensor :=
  s ← out_shape m (shape x); Some (mkTensor s (values m x)).

End ConvTranspose1d.

(** [nn.BatchNorm1d(num_features)] with its statistics frozen *)
Module BatchNorm1d.

Record t := mk {
  num_features : nat;
  params : NormParams
}.

Definition out_shape (m : t) (s : nat * nat) : option (nat * nat) :=
  if (fst s =? num_features m)%nat then Some s else None.

Definition values (m : t) (x : Tensor) (c tm : nat) : R :=
  let p := params m in
  ((entry x c tm - running_mean p c) / sqrt (running_var p c + eps p)
   * gamma p c + beta p c)%R.

Definition forward (m : t) (x : Tensor) : option Tensor :=
  s ← out_shape m (shape x); Some (mkTensor s (values m x)).

End BatchNorm1d.

(** [nn.Softmax(dim=1)]: at every time index, the exponentials of the
    channel values divided by their sum. *)
Definition softmax (x : Tensor) : Tensor :=
  mkTensor (shape x)
    (fun c t => (exp (entry x c t)
                 / big_sum (n_channels x) (fun c' => exp (entry x c' t)))%R).

End torch.

Import torch.

(** ** Conv1dSame (lines 10-39) *)

Module Conv1dSame.

(** [math.ceil(a / 2)] for an integer [a] *)
Definition ceil_half (a : Z) : Z := - ((- a) / 2).

Record t := mk {
  cut_last_element : bool;
  padding : Z;
  conv : Conv1d.t
}.

(** [__init__] (lines 20-33); [w] stands for the parameters that
    [nn.Conv1d] allocates. *)
Definition init (in_channels out_channels : nat)
    (kernel_size stride dilation : Z) (w : ConvParams) : t :=
  let cut_last_element :=
    (kernel_size mod 2 =? 0) && (stride =? 1) && (dilation mod 2 =? 1) in
  let padding := ceil_half (1 - stride + dilation * (kernel_size - 1)) in
  mk cut_last_element padding
     (Conv1d.mk in_channels out_channels kernel_size stride (padding + 1)
        dilation w).

(** [y[:, :, :-1]]: every channel without its last time step (an empty time
    axis stays empty). *)
Definition drop_last (y : Tensor) : Tensor :=
  mkTensor (n_channels y, (n_samples y - 1)%nat) (entry y).

(** [forward] (lines 35-39) *)
Definition forward (m : t) (x : Tensor) : option Tensor :=
  if cut_last_element m then drop_last <$> Conv1d.forward (conv m) x
  else Conv1d.forward (conv m) x.

End Conv1dSame.

(** ** numpy arrays of two axes *)

Module np.

(** [np.ndarray] of two axes: its shape and its entries, as for a tensor. *)
Record ndarray := mk {
  shape : nat * nat;
  item : nat -> nat -> R
}.

(** Two arrays are the same when they have one shape and agree inside it. *)
Definition array_eq (x y : ndarray) : Prop :=
  shape x = shape y /\
  forall i j, (i < fst (shape x))%nat -> (j < snd (shape x))%nat ->
    item x i j = item y i j.

(** The mean of [f 0 .. f (n-1)], and their standard deviation: the square
    root of the mean of the squared deviations from the mean. *)
Definition row_mean (n : nat) (f : nat -> R) : R :=
  (big_sum n f / INR n)%R.

Definition row_std (n : nat) (f : nat -> R) : R :=
  sqrt (row_mean n (fun j => ((f j - row_mean n f)
                              * (f j - row_mean n f))%R)).

(** [np.mean(x, axis=-1, keepdims=True)]: one column, of the row means. *)
Definition mean (x : ndarray) : ndarray :=
  mk (fst (shape x), 1%nat)
     (fun i _ => row_mean (snd (shape x)) (item x i)).

(** [np.std(x, axis=-1, keepdims=True)]: one column, of the row standard
    deviations. *)
Definition std (x : ndarray) : ndarray :=
  mk (fst (shape x), 1%nat)
     (fun i _ => row_std (snd (shape x)) (item x i)).

(** [x - m] and [x / m] for [m] of shape (rows, 1), broadcast along the
    last axis. *)
Definition sub_col (x m : ndarray) : ndarray :=
  mk (shape x) (fun i j => (item x i j - item m i 0%nat)%R).

Definition div_col (x m : ndarray) : ndarray :=
  mk (shape x) (fun i j => (item x i j / item m i 0%nat)%R).

(** [a[a == 0] = v] *)
Definition set_where_zero (a : ndarray) (v : R) : ndarray :=
  mk (shape a) (fun i j => if Req_dec_T (item a i j) 0 then v else item a i j).

(** [x.T] *)
Definition T (x : ndarray) : ndarray :=
  mk (snd (shape x), fst (shape x)) (fun i j => item x j i).

End np.

(** ** The preprocessing in binary64 arithmetic *)

(** The same steps on the numbers that numpy holds: binary64 floats, each
    operation rounded to nearest. A window is the list of its channels. The
    entries of a row are added from left to right, as numpy does for a row
    of fewer than 8 entries. *)
Module np64.

Definition sum (row : list float) : float :=
  fold_left PrimFloat.add row 0%float.

(** The number of entries as a float (exact below 2^53). *)
Fixpoint count (n : nat) : float :=
  match n with
  | O => 0%float
  | S n' => PrimFloat.add (count n') 1%float
  end.

(** [np.mean] of one row: the sum divided by the count. *)
Definition mean (row : list float) : float :=
  PrimFloat.div (sum row) (count (length row)).

(** [np.std] of one row: the square root of the mean of the squared
    deviations from the mean. *)
Definition std (row : list float) : float :=
  let m := mean row in
  let x := map (fun v => PrimFloat.sub v m) row in
  PrimFloat.sqrt (mean (map (fun v => PrimFloat.mul v v) x)).

(** [annotate_window_pre] (lines 126-132), channel by channel. *)
Definition annotate_window_pre (window : list (list float))
    : list (list float) :=
  map (fun row =>
         let m := mean row in
         let row := map (fun v => PrimFloat.sub v m) row in
         let std := std row in
         let std := if PrimFloat.eqb std 0%float then 1%float else std in
         map (fun v => PrimFloat.div v std) row)
      window.


End np64.

(** ** Traces, picks and their order *)

(** An annotation trace ([obspy.Trace]): the codes of [trace.stats], the
    start time, the samples, and the sample offsets that [trace.times()]
    returns. Times are whole nanoseconds, as [UTCDateTime] stores them. *)
Record Trace := mkTrace {
  network : string;
  station : string;
  location : string;
  channel : string;
  starttime : Z;
  data : list R;
  times : list Z
}.

(** A pick: the triple (trace id, pick time, phase). *)
Definition Pick : Type := string * Z * string.

Definition pick_phase (p : Pick) : string := snd p.

(** Python's order on tuples: the first component that differs decides. *)
Definition pick_compare (a b : Pick) : comparison :=
  let '(id_a, t_a, ph_a) := a in
  let '(id_b, t_b, ph_b) := b in
  match String.compare id_a id_b with
  | Eq => match Z.compare t_a t_b with
          | Eq => String.compare ph_a ph_b
          | c => c
          end
  | c => c
  end.

(** [a <= b], that is, not [b < a]. *)
Definition pick_le (a b : Pick) : Prop := pick_compare a b <> Gt.

#[global] Instance pick_le_dec : RelDecision pick_le :=
  fun a b => decide (pick_compare a b <> Gt).

(** [sorted(picks)]: a stable merge sort by the tuple order. *)
Definition sorted (picks : list Pick) : list Pick := merge_sort pick_le picks.

(** ** PhaseNet (lines 42-164) *)

Module PhaseNet.

(** The parameters and buffers of the layers, by attribute name. *)
Record StateDict := mkStateDict {
  conv_params : string -> ConvParams;
  norm_params : string -> NormParams
}.

Record t := mk {
  labels : list string;
  in_channels : nat;
  classes : nat;
  kernel_size : Z;
  stride : Z;
  inc : Conv1d.t;
  in_bn : BatchNorm1d.t;
  conv1 : Conv1dSame.t;
  bnd1 : BatchNorm1d.t;
  conv2 : Conv1dSame.t;
  bnd2 : BatchNorm1d.t;
  conv3 : Conv1dSame.t;
  bnd3 : BatchNorm1d.t;
  conv4 : Conv1dSame.t;
  bnd4 : BatchNorm1d.t;
  up1 : ConvTranspose1d.t;
  bnu1 : BatchNorm1d.t;
  up2 : ConvTranspose1d.t;
  bnu2 : BatchNorm1d.t;
  up3 : ConvTranspose1d.t;
  bnu3 : BatchNorm1d.t;
  up4 : ConvTranspose1d.t;
  bnu4 : BatchNorm1d.t;
  out : ConvTranspose1d.t
}.

(** The declared input window: [in_samples=3001]. *)
Definition in_samples : nat := 3001.

(** [__init__] (lines 43-106). [phases] are the labels, one per class
    (["N"; "P"; "S"] by default); [sd] stands for the parameters that the
    layers allocate. *)
Definition init (in_channels classes : nat) (phases : list string)
    (sd : StateDict) : t :=
  let kernel_size := 7 in
  let stride := 4 in
  let cp := conv_params sd in
  let bn n name := BatchNorm1d.mk n (norm_params sd name) in
  let conv1 := Conv1dSame.init 8 11 kernel_size stride 1 (cp "conv1") in
  let conv2 := Conv1dSame.init 11 16 kernel_size stride 1 (cp "conv2") in
  let conv3 := Conv1dSame.init 16 22 kernel_size stride 1 (cp "conv3") in
  let conv4 := Conv1dSame.init 22 32 kernel_size stride 1 (cp "conv4") in
  mk phases in_channels classes kernel_size stride
     (Conv1d.mk in_channels 8 1 1 0 1 (cp "inc")) (bn 8%nat "in_bn")
     conv1 (bn 11%nat "bnd1")
     conv2 (bn 16%nat "bnd2")
     conv3 (bn 22%nat "bnd3")
     conv4 (bn 32%nat "bnd4")
     (ConvTranspose1d.mk 32 22 kernel_size stride
        (Conv1dSame.padding conv4) 0 (cp "up1"))
     (bn 22%nat "bnu1")
     (ConvTranspose1d.mk 44 16 kernel_size stride
        (Conv1dSame.padding conv3) 1 (cp "up2"))
     (bn 16%nat "bnu2")
     (ConvTranspose1d.mk 32 11 kernel_size stride
        (Conv1dSame.padding conv2) 0 (cp "up3"))
     (bn 11%nat "bnu3")
     (ConvTranspose1d.mk 22 8 kernel_size stride 3 0 (cp "up4"))
     (bn 8%nat "bnu4")
     (ConvTranspose1d.mk 16 classes 1 1 0 0 (cp "out")).

(** [self.activation(bn(layer(x)))] *)
Definition block (layer : Tensor -> option Tensor) (bn : BatchNorm1d.t)
    (x : Tensor) : option Tensor :=
  relu <$> (layer x ≫= BatchNorm1d.forward bn).

(** [forward] (lines 108-124) *)
Definition forward (m : t) (x : Tensor) : option Tensor :=
  x_in ← block (Conv1d.forward (inc m)) (in_bn m) x;
  x1 ← block (Conv1dSame.forward (conv1 m)) (bnd1 m) x_in;
  x2 ← block (Conv1dSame.forward (conv2 m)) (bnd2 m) x1;
  x3 ← block (Conv1dSame.forward (conv3 m)) (bnd3 m) x2;
  x4 ← block (Conv1dSame.forward (conv4 m)) (bnd4 m) x3;
  x ← block (ConvTranspose1d.forward (up1 m)) (bnu1 m) x4 ≫= (fun u => cat u x3);
  x ← block (ConvTranspose1d.forward (up2 m)) (bnu2 m) x ≫= (fun u => cat u x2);
  x ← block (ConvTranspose1d.forward (up3 m)) (bnu3 m) x ≫= (fun u => cat u x1);
  x ← block (ConvTranspose1d.forward (up4 m)) (bnu4 m) x ≫= (fun u => cat u x_in);
  x ← ConvTranspose1d.forward (out m) x;
  Some (softmax x).

(** [annotate_window_pre] (lines 126-132) *)
Definition annotate_window_pre (window : np.ndarray) (argdict : gmap string R)
    : np.ndarray :=
  let window := np.sub_col window (np.mean window) in
  let std := np.std window in
  let std := np.set_where_zero std 1 in
  let window := np.div_col window std in
  window.

(** [annotate_window_post] (lines 134-136) *)
Definition annotate_window_post (pred : np.ndarray) (argdict : gmap string R)
    : np.ndarray :=
  np.T pred.

Section classify.

(** [obspy.signal.trigger.trigger_onset]: the (on, off) index pairs of a
    series for a trigger-on and a trigger-off threshold. *)
Variable trigger_onset : list R -> R -> R -> list (nat * nat).

(** The channel pattern match of [Stream.select]. *)
Variable channel_matches : string -> string -> bool.

(** [annotations.select(channel=pattern)] *)
Definition select (annotations : list Trace) (pattern : string) : list Trace :=
  filter (fun trace => channel_matches (channel trace) pattern = true)
    annotations.

(** [argdict.get(f"{phase}_threshold", 0.3)] *)
Definition pick_threshold (argdict : gmap string R) (phase : string) : R :=
  default 0.3%R (argdict !! (phase +:+ "_threshold")).

(** Lines 157-162: the picks of one trace. [times[s0]] raises for an index
    outside the trace. *)
Definition trace_picks (phase : string) (pick_threshold : R) (trace : Trace)
    : option (list Pick) :=
  let trace_id :=
    network trace +:+ "." +:+ station trace +:+ "." +:+ location trace in
  let triggers :=
    trigger_onset (data trace) pick_threshold (pick_threshold / 2)%R in
  mapM (fun '(s0, _) =>
          dt ← times trace !! s0;
          Some (trace_id, starttime trace + dt, phase))
       triggers.

(** Lines 151-162: the picks of one phase, none for the noise label. *)
Definition phase_picks (annotations : list Trace) (argdict : gmap string R)
    (phase : string) : option (list Pick) :=
  if String.eqb phase "N" then Some []
  else
    let pick_threshold := pick_threshold argdict phase in
    @concat Pick <$> mapM (trace_picks phase pick_threshold)
                          (select annotations ("PhaseNet_" +:+ phase)).

(** Lines 149-162: the list [picks] when the loops end. *)
Definition collect_picks (m : t) (annotations : list Trace)
    (argdict : gmap string R) : option (list Pick) :=
  @concat Pick <$> mapM (phase_picks annotations argdict) (labels m).

(** [classify_aggregate] (lines 138-164) *)
Definition classify_aggregate (m : t) (annotations : list Trace)
    (argdict : gmap string R) : option (list Pick) :=
  sorted <$> collect_picks m annotations argdict.

End classify.

End PhaseNet.

(** ** Concrete inputs *)

(** A network of the reference configuration (3 channels, 3 classes, labels
    N, P and S) with every parameter 0, a window of zeros of the declared
    shape, and three annotation traces of one station. *)
Definition zero_state : PhaseNet.StateDict :=
  PhaseNet.mkStateDict
    (fun _ => mkConvParams (fun _ _ _ => 0%R) (fun _ => 0%R))
    (fun _ => mkNormParams (fun _ => 1%R) (fun _ => 0%R) (fun _ => 0%R)
                (fun _ => 1%R) 0%R).

Definition reference_model : PhaseNet.t :=
  PhaseNet.init 3 3 ["N"; "P"; "S"]%string zero_state.

Definition zero_window : Tensor :=
  mkTensor (3%nat, PhaseNet.in_samples) (fun _ _ => 0%R).

Definition example_trace (phase : string) (start : Z) : Trace :=
  mkTrace "NN" "STA" "" ("PhaseNet_" +:+ phase) start
    [0.1; 0.9; 0.1]%R [0; 10; 20].

(** A trigger primitive that reports one interval, from sample 1 to 2. *)
Definition one_trigger (signal : list R) (on off : R) : list (nat * nat) :=
  [(1%nat, 2%nat)].

(** A trigger primitive that reports nothing, a ramp of two samples on one
    channel, and the ramp with gain 2 and offset 1. *)
Definition no_trigger (signal : list R) (on off : R) : list (nat * nat) :=
  [].

Definition ramp_window : np.ndarray :=
  np.mk (1%nat, 2%nat) (fun _ j => INR j).

Definition scaled_ramp_window : np.ndarray :=
  np.mk (1%nat, 2%nat) (fun _ j => (2 * INR j + 1)%R).

Definition example_annotations : list Trace :=
  [example_trace "S" 2000; example_trace "N" 0; example_trace "P" 1000].

(** * Properties *)

(** ** Shapes of the framework's layers *)

Lemma Conv1d_forward_shape (m : Conv1d.t) (x : Tensor) :
  shape <$> Conv1d.forward m x = Conv1d.out_shape m (shape x).
Proof. unfold Conv1d.forward. by destruct (Conv1d.out_shape m (shape x)). Qed.

Lemma Conv1d_forward_Some (m : Conv1d.t) (x : Tensor) (s : nat * nat) :
  Conv1d.out_shape m (shape x) = Some s ->
  Conv1d.forward m x = Some (mkTensor s (Conv1d.values m x)).
Proof. unfold Conv1d.forward. by intros ->. Qed.

(** A convolution that returns never returns an empty time axis. *)
Lemma Conv1d_out_shape_nonempty (m : Conv1d.t) (s s' : nat * nat) :
  Conv1d.out_shape m s = Some s' -> (0 < snd s')%nat.
Proof.
  unfold Conv1d.out_shape.
  destruct (negb _); [done|].
  destruct (_ || _) eqn:Hpar; [done|].
  destruct (Z.of_nat _ + _ <? _) eqn:Hfit; [done|].
  intros [= <-]. simpl.
  apply orb_false_iff in Hpar as [Hpar _].
  apply orb_false_iff in Hpar as [Hpar _].
  apply orb_false_iff in Hpar as [_ Hs].
  apply Z.leb_gt in Hs. apply Z.ltb_ge in Hfit.
  assert (0 <= (Z.of_nat (snd s) + 2 * Conv1d.padding m
                - (Conv1d.dilation m * (Conv1d.kernel_size m - 1) + 1))
               / Conv1d.stride m) by (apply Z.div_pos; lia).
  lia.
Qed.

(** ** Conv1dSame *)

Lemma ceil_half_double (a : Z) :
  2 * Conv1dSame.ceil_half a = a + (if Z.odd a then 1 else 0).
Proof.
  unfold Conv1dSame.ceil_half.
  pose proof (Zodd_mod a) as Ho.
  destruct (Z.odd a); symmetry in Ho.
  - apply Z.eqb_eq in Ho. Z.div_mod_to_equations. lia.
  - apply Z.eqb_neq in Ho. Z.div_mod_to_equations. lia.
Qed.

Lemma cut_last_element_spec ic oc k s d w :
  Conv1dSame.cut_last_element (Conv1dSame.init ic oc k s d w)
  = Z.even k && (s =? 1) && Z.odd d.
Proof. simpl. by rewrite <- Zeven_mod, <- Zodd_mod. Qed.

(** With stride 1 the layer returns two samples more than it is given,
    whatever the kernel size and the dilation. *)
Lemma Conv1dSame_stride1_shape ic oc k d w (x : Tensor) :
  0 < k -> 0 < d -> n_channels x = ic ->
  shape <$> Conv1dSame.forward (Conv1dSame.init ic oc k 1 d w) x
  = Some (oc, (n_samples x + 2)%nat).
Proof.
  intros Hk Hd Hc.
  pose proof (ceil_half_double (1 - 1 + d * (k - 1))) as Hp.
  assert (Hodd : Z.odd (1 - 1 + d * (k - 1)) = Z.even k && Z.odd d).
  { replace (1 - 1 + d * (k - 1)) with (d * Z.pred k) by lia.
    rewrite Z.odd_mul, Z.odd_pred. apply andb_comm. }
  rewrite Hodd in Hp.
  unfold Conv1dSame.forward. rewrite cut_last_element_spec. simpl (_ =? _).
  rewrite andb_true_r.
  set (p := Conv1dSame.ceil_half (1 - 1 + d * (k - 1))) in *.
  assert (Hs : Conv1d.out_shape
                 (Conv1dSame.conv (Conv1dSame.init ic oc k 1 d w)) (shape x)
               = Some (oc, (n_samples x + 2
                            + (if Z.even k && Z.odd d then 1 else 0))%nat)).
  { unfold Conv1d.out_shape. simpl. fold p. fold (n_channels x).
    fold (n_samples x). rewrite Hc, Nat.eqb_refl. simpl.
    replace (p + 1 <? 0) with false by (symmetry; apply Z.ltb_ge;
      destruct (Z.even k && Z.odd d); nia).
    replace (d <=? 0) with false by (symmetry; apply Z.leb_gt; lia).
    replace (k <=? 0) with false by (symmetry; apply Z.leb_gt; lia).
    simpl.
    replace (_ <? _) with false by (symmetry; apply Z.ltb_ge;
      destruct (Z.even k && Z.odd d); nia).
    rewrite Z.div_1_r. f_equal. f_equal.
    destruct (Z.even k && Z.odd d); lia. }
  rewrite (Conv1d_forward_Some _ _ _ Hs).
  destruct (Z.even k && Z.odd d); simpl; f_equal; f_equal;
    unfold n_samples; simpl; lia.
Qed.

(** C3. A [Conv1dSame] of kernel size 7, stride 1 and dilation 1, given 8
    channels of 10 samples, returns 12 samples a channel, not 10: with stride
    1 the output is two samples longer than the input. *)
Theorem Conv1dSame_stride1_longer (w : ConvParams) (f : nat -> nat -> R) :
  shape <$> Conv1dSame.forward (Conv1dSame.init 8 11 7 1 1 w)
              (mkTensor (8%nat, 10%nat) f)
  = Some (11%nat, 12%nat).
Proof. by rewrite Conv1dSame_stride1_shape. Qed.

(** C4. The flag [cut_last_element] is set exactly when the kernel size is
    even, the stride is 1 and the dilation is odd. When it is set, [forward]
    returns the output of the convolution without its last time step, which
    exists; when it is not, [forward] returns the output of the convolution
    as it is; where the convolution raises, so does [forward]. Kernel size 7
    with stride 1 and dilation 1 does not trim (12 samples from 10), kernel
    size 6 does (13 samples from the convolution, 12 returned). *)
Theorem Conv1dSame_trims_iff ic oc k s d w (x : Tensor) :
  let m := Conv1dSame.init ic oc k s d w in
  (Conv1dSame.cut_last_element m = true
   <-> Z.even k = true /\ s = 1 /\ Z.odd d = true)
  /\ (Conv1dSame.cut_last_element m = true ->
      forall y, Conv1d.forward (Conv1dSame.conv m) x = Some y ->
        exists y', Conv1dSame.forward m x = Some y'
                   /\ n_channels y' = n_channels y
                   /\ S (n_samples y') = n_samples y
                   /\ entry y' = entry y)
  /\ (Conv1dSame.cut_last_element m = false ->
      Conv1dSame.forward m x = Conv1d.forward (Conv1dSame.conv m) x)
  /\ (Conv1d.forward (Conv1dSame.conv m) x = None ->
      Conv1dSame.forward m x = None)
  /\ (let m7 := Conv1dSame.init 8 11 7 1 1 w in
      let x10 := mkTensor (8%nat, 10%nat) (entry x) in
      Conv1dSame.cut_last_element m7 = false
      /\ n_samples <$> Conv1d.forward (Conv1dSame.conv m7) x10 = Some 12%nat
      /\ n_samples <$> Conv1dSame.forward m7 x10 = Some 12%nat)
  /\ (let m6 := Conv1dSame.init 8 11 6 1 1 w in
      let x10 := mkTensor (8%nat, 10%nat) (entry x) in
      Conv1dSame.cut_last_element m6 = true
      /\ n_samples <$> Conv1d.forward (Conv1dSame.conv m6) x10 = Some 13%nat
      /\ n_samples <$> Conv1dSame.forward m6 x10 = Some 12%nat).
Proof.
  intros m. split; [|split; [|split; [|split; [|split]]]].
  - unfold m. rewrite cut_last_element_spec, !andb_true_iff, Z.eqb_eq. tauto.
  - intros Hcut y Hy. unfold Conv1dSame.forward. rewrite Hcut, Hy. simpl.
    eexists. split; [reflexivity|]. split; [reflexivity|]. split; [|done].
    pose proof (Conv1d_forward_shape (Conv1dSame.conv m) x) as Hs.
    rewrite Hy in Hs. simpl in Hs. symmetry in Hs.
    apply Conv1d_out_shape_nonempty in Hs.
    unfold Conv1dSame.drop_last, n_samples in *. cbn [snd shape]. lia.
  - intros Hcut. unfold Conv1dSame.forward. by rewrite Hcut.
  - intros Hnone. unfold Conv1dSame.forward. rewrite Hnone.
    by destruct (Conv1dSame.cut_last_element m).
  - done.
  - done.
Qed.

Lemma Conv1dSame_forward_shape (m : Conv1dSame.t) (x : Tensor) :
  shape <$> Conv1dSame.forward m x
  = (if Conv1dSame.cut_last_element m
     then fun s : nat * nat => (fst s, (snd s - 1)%nat) else fun s => s)
    <$> Conv1d.out_shape (Conv1dSame.conv m) (shape x).
Proof.
  unfold Conv1dSame.forward, Conv1d.forward.
  destruct (Conv1dSame.cut_last_element m),
    (Conv1d.out_shape (Conv1dSame.conv m) (shape x)) as [[c n]|]; done.
Qed.

Lemma ConvTranspose1d_forward_shape (m : ConvTranspose1d.t) (x : Tensor) :
  shape <$> ConvTranspose1d.forward m x
  = ConvTranspose1d.out_shape m (shape x).
Proof.
  unfold ConvTranspose1d.forward.
  by destruct (ConvTranspose1d.out_shape m (shape x)).
Qed.

(** ** The network *)

(** A block returns the shape of its layer when the batch normalisation
    has that many features. *)
Lemma block_shape (layer : Tensor -> option Tensor) (bn : BatchNorm1d.t)
    (x : Tensor) (s : nat * nat) :
  shape <$> layer x = Some s ->
  fst s = BatchNorm1d.num_features bn ->
  exists z, PhaseNet.block layer bn x = Some z /\ shape z = s.
Proof.
  intros Hl Hn. unfold PhaseNet.block.
  destruct (layer x) as [y|]; [|done].
  injection Hl as <-. simpl.
  unfold BatchNorm1d.forward, BatchNorm1d.out_shape.
  rewrite Hn, Nat.eqb_refl. simpl. by eexists.
Qed.

Lemma cat_shape (a b : Tensor) (ca cb n : nat) :
  shape a = (ca, n) -> shape b = (cb, n) ->
  exists z, cat a b = Some z /\ shape z = ((ca + cb)%nat, n).
Proof.
  intros Ha Hb. unfold cat, n_samples, n_channels.
  rewrite Ha, Hb. simpl. rewrite Nat.eqb_refl. by eexists.
Qed.

(** The network returns, on a window of [in_channels] channels and 3001
    samples, the softmax of a tensor of [classes] channels and 3001
    samples. *)
Lemma PhaseNet_forward_softmax ic cl phases sd (x : Tensor) :
  shape x = (ic, PhaseNet.in_samples) ->
  exists z, shape z = (cl, PhaseNet.in_samples)
            /\ PhaseNet.forward (PhaseNet.init ic cl phases sd) x
               = Some (softmax z).
Proof.
  intros Hx. unfold PhaseNet.forward.
  set (m := PhaseNet.init ic cl phases sd).
  destruct (block_shape (Conv1d.forward (PhaseNet.inc m)) (PhaseNet.in_bn m)
              x (8%nat, 3001%nat)) as (x_in & -> & Hin); [|done|].
  { rewrite Conv1d_forward_shape, Hx. unfold Conv1d.out_shape. simpl.
    by rewrite Nat.eqb_refl. }
  cbn [mbind option_bind].
  destruct (block_shape (Conv1dSame.forward (PhaseNet.conv1 m))
              (PhaseNet.bnd1 m) x_in (11%nat, 751%nat))
    as (x1 & -> & H1); [by rewrite Conv1dSame_forward_shape, Hin|done|].
  cbn [mbind option_bind].
  destruct (block_shape (Conv1dSame.forward (PhaseNet.conv2 m))
              (PhaseNet.bnd2 m) x1 (16%nat, 188%nat))
    as (x2 & -> & H2); [by rewrite Conv1dSame_forward_shape, H1|done|].
  cbn [mbind option_bind].
  destruct (block_shape (Conv1dSame.forward (PhaseNet.conv3 m))
              (PhaseNet.bnd3 m) x2 (22%nat, 47%nat))
    as (x3 & -> & H3); [by rewrite Conv1dSame_forward_shape, H2|done|].
  cbn [mbind option_bind].
  destruct (block_shape (Conv1dSame.forward (PhaseNet.conv4 m))
              (PhaseNet.bnd4 m) x3 (32%nat, 12%nat))
    as (x4 & -> & H4); [by rewrite Conv1dSame_forward_shape, H3|done|].
  cbn [mbind option_bind].
  destruct (block_shape (ConvTranspose1d.forward (PhaseNet.up1 m))
              (PhaseNet.bnu1 m) x4 (22%nat, 47%nat))
    as (u1 & -> & Hu1); [by rewrite ConvTranspose1d_forward_shape, H4|done|].
  destruct (cat_shape u1 x3 _ _ _ Hu1 H3) as (c1 & Hc1 & Hs1).
  cbn [mbind option_bind]. rewrite Hc1. cbn [mbind option_bind].
  destruct (block_shape (ConvTranspose1d.forward (PhaseNet.up2 m))
              (PhaseNet.bnu2 m) c1 (16%nat, 188%nat))
    as (u2 & -> & Hu2); [by rewrite ConvTranspose1d_forward_shape, Hs1|done|].
  destruct (cat_shape u2 x2 _ _ _ Hu2 H2) as (c2 & Hc2 & Hs2).
  cbn [mbind option_bind]. rewrite Hc2. cbn [mbind option_bind].
  destruct (block_shape (ConvTranspose1d.forward (PhaseNet.up3 m))
              (PhaseNet.bnu3 m) c2 (11%nat, 751%nat))
    as (u3 & -> & Hu3); [by rewrite ConvTranspose1d_forward_shape, Hs2|done|].
  destruct (cat_shape u3 x1 _ _ _ Hu3 H1) as (c3 & Hc3 & Hs3).
  cbn [mbind option_bind]. rewrite Hc3. cbn [mbind option_bind].
  destruct (block_shape (ConvTranspose1d.forward (PhaseNet.up4 m))
              (PhaseNet.bnu4 m) c3 (8%nat, 3001%nat))
    as (u4 & -> & Hu4); [by rewrite ConvTranspose1d_forward_shape, Hs3|done|].
  destruct (cat_shape u4 x_in _ _ _ Hu4 Hin) as (c4 & Hc4 & Hs4).
  cbn [mbind option_bind]. rewrite Hc4. cbn [mbind option_bind].
  pose proof (ConvTranspose1d_forward_shape (PhaseNet.out m) c4) as Ho.
  rewrite Hs4 in Ho.
  destruct (ConvTranspose1d.forward (PhaseNet.out m) c4) as [z|]; [|done].
  injection Ho as Ho. cbn [mbind option_bind]. by exists z.
Qed.

(** C1. On every window of [in_channels] channels (3 in the reference
    configuration) and 3001 samples, [forward] returns a tensor whose time
    length is that of the window, 3001, with one channel per class. *)
Theorem PhaseNet_forward_time_length ic cl phases sd (x : Tensor) :
  n_channels x = ic ->
  n_samples x = PhaseNet.in_samples ->
  exists y, PhaseNet.forward (PhaseNet.init ic cl phases sd) x = Some y
            /\ n_samples y = n_samples x
            /\ n_samples y = 3001%nat
            /\ n_channels y = cl.
Proof.
  intros Hc Hn.
  destruct (PhaseNet_forward_softmax ic cl phases sd x) as (z & Hz & ->).
  { destruct x as [[c n] f]. unfold n_channels, n_samples in *.
    simpl in *. by subst. }
  exists (softmax z). unfold n_samples, n_channels. simpl.
  rewrite Hz. simpl. unfold n_samples in Hn. by rewrite Hn.
Qed.

(** ** Softmax *)

Lemma big_sum_ext (n : nat) (f g : nat -> R) :
  (forall i, (i < n)%nat -> f i = g i) -> big_sum n f = big_sum n g.
Proof.
  induction n as [|n IH]; intros Hfg; simpl; [done|].
  rewrite IH, (Hfg n) by (intros; try apply Hfg; lia). done.
Qed.

Lemma big_sum_scale (n : nat) (f : nat -> R) (k : R) :
  big_sum n (fun i => (f i * k)%R) = (big_sum n f * k)%R.
Proof. induction n as [|n IH]; simpl; [lra|rewrite IH; lra]. Qed.

Lemma big_sum_pos (n : nat) (f : nat -> R) :
  (0 < n)%nat -> (forall i, (i < n)%nat -> (0 < f i)%R) ->
  (0 < big_sum n f)%R.
Proof.
  intros Hn Hf. destruct n as [|n]; [lia|]. clear Hn.
  induction n as [|n IH].
  - simpl. specialize (Hf 0%nat ltac:(lia)). lra.
  - change (0 < big_sum (S n) f + f (S n))%R.
    specialize (IH ltac:(intros; apply Hf; lia)).
    specialize (Hf (S n) ltac:(lia)). lra.
Qed.

Lemma big_sum_nonneg (n : nat) (f : nat -> R) :
  (forall i, (0 <= f i)%R) -> (0 <= big_sum n f)%R.
Proof.
  intros Hf. induction n as [|n IH]; cbn [big_sum]; [lra|].
  pose proof (Hf n). lra.
Qed.

(** One term of a sum of non-negative terms is at most the sum. *)
Lemma big_sum_term_le (n : nat) (f : nat -> R) (c : nat) :
  (forall i, (0 <= f i)%R) -> (c < n)%nat -> (f c <= big_sum n f)%R.
Proof.
  intros Hf. induction n as [|n IH]; intros Hlt; [lia|].
  cbn [big_sum]. destruct (decide (c = n)) as [->|Hne].
  - pose proof (big_sum_nonneg n f Hf). lra.
  - specialize (IH ltac:(lia)). pose proof (Hf n). lra.
Qed.

Lemma softmax_column (x : Tensor) (t : nat) :
  (0 < n_channels x)%nat ->
  big_sum (n_channels (softmax x)) (fun c => entry (softmax x) c t) = 1%R
  /\ forall c, (0 < entry (softmax x) c t)%R.
Proof.
  intros Hn. cbn [softmax entry].
  change (n_channels (softmax x)) with (n_channels x).
  set (total := big_sum (n_channels x) (fun c' => exp (entry x c' t))).
  assert (Hpos : (0 < total)%R).
  { apply big_sum_pos; [done|]. intros. apply exp_pos. }
  split.
  - unfold Rdiv. rewrite big_sum_scale. fold total. field. lra.
  - intros c. apply Rdiv_lt_0_compat; [apply exp_pos|done].
Qed.

(** C2. On every window of [in_channels] channels and 3001 samples, and for
    a network of at least one class, [forward] returns a tensor of one
    channel per class and of the 3001 time samples of the window in which,
    at every time index, the values along the class axis are positive and
    sum to 1. *)
Theorem PhaseNet_forward_columns_sum_to_one ic cl phases sd (x : Tensor) :
  n_channels x = ic ->
  n_samples x = PhaseNet.in_samples ->
  (0 < cl)%nat ->
  exists y, PhaseNet.forward (PhaseNet.init ic cl phases sd) x = Some y
            /\ n_channels y = cl
            /\ n_samples y = n_samples x
            /\ n_samples y = 3001%nat
            /\ forall t, (t < n_samples y)%nat ->
                 big_sum (n_channels y) (fun c => entry y c t) = 1%R
                 /\ forall c, (c < n_channels y)%nat ->
                      (0 < entry y c t <= 1)%R.
Proof.
  intros Hc Hn Hcl.
  destruct (PhaseNet_forward_softmax ic cl phases sd x) as (z & Hz & ->).
  { destruct x as [[c n] f]. unfold n_channels, n_samples in *.
    simpl in *. by subst. }
  exists (softmax z). split; [done|].
  assert (Hzc : n_channels z = cl) by (unfold n_channels; by rewrite Hz).
  split; [done|].
  assert (Hzn : n_samples (softmax z) = 3001%nat)
    by (unfold n_samples; simpl; by rewrite Hz).
  split; [by rewrite Hzn, Hn|]. split; [done|]. intros t _.
  destruct (softmax_column z t) as [Hsum Hpos]; [lia|].
  split; [done|]. intros c Hlt. split; [done|].
  rewrite <- Hsum.
  apply (big_sum_term_le _ (fun c => entry (softmax z) c t)); [|done].
  intros i. left. apply Hpos.
Qed.

(** ** Window pre- and post-processing *)

Lemma INR_pos_neq (n : nat) : (0 < n)%nat -> INR n <> 0%R.
Proof. intros Hn. apply not_0_INR. lia. Qed.

Lemma big_sum_minus_const (n : nat) (f : nat -> R) (k : R) :
  big_sum n (fun j => (f j - k)%R) = (big_sum n f - INR n * k)%R.
Proof.
  induction n as [|n IH]; [simpl; lra|].
  cbn [big_sum]. rewrite IH, S_INR. lra.
Qed.


Lemma row_mean_ext (n : nat) (f g : nat -> R) :
  (forall j, (j < n)%nat -> f j = g j) -> np.row_mean n f = np.row_mean n g.
Proof. intros H. unfold np.row_mean. by rewrite (big_sum_ext n f g). Qed.


(** A row from which its mean is subtracted has mean 0. *)
Lemma row_mean_demean (n : nat) (f : nat -> R) :
  (0 < n)%nat -> np.row_mean n (fun j => (f j - np.row_mean n f)%R) = 0%R.
Proof.
  intros Hn. unfold np.row_mean. rewrite big_sum_minus_const.
  field. by apply INR_pos_neq.
Qed.

Lemma row_mean_scale (n : nat) (f : nat -> R) (k : R) :
  np.row_mean n (fun j => (f j * k)%R) = (np.row_mean n f * k)%R.
Proof.
  unfold np.row_mean. rewrite big_sum_scale. unfold Rdiv. ring.
Qed.

Lemma row_mean_squares_nonneg (n : nat) (f : nat -> R) :
  (0 <= np.row_mean n (fun j => (f j * f j)%R))%R.
Proof.
  unfold np.row_mean. destruct n as [|n].
  - simpl. unfold Rdiv. rewrite Rinv_0. lra.
  - apply Rmult_le_pos.
    + apply big_sum_nonneg. intros i. nra.
    + left. apply Rinv_0_lt_compat. apply lt_0_INR. lia.
Qed.

(** The standard deviation of a row of mean 0. *)
Lemma row_std_centred (n : nat) (f : nat -> R) :
  np.row_mean n f = 0%R ->
  np.row_std n f = sqrt (np.row_mean n (fun j => (f j * f j)%R)).
Proof.
  intros H0. unfold np.row_std. rewrite H0. f_equal.
  apply row_mean_ext. intros j _. ring.
Qed.

(** The divisor that [annotate_window_pre] uses for a row: its standard
    deviation, or 1 when that is 0. *)
Lemma pre_divisor_nonzero (sigma : R) :
  (if Req_dec_T sigma 0 then 1%R else sigma) <> 0%R.
Proof. destruct (Req_dec_T sigma 0); [lra|done]. Qed.

(** A demeaned row divided by its divisor has mean 0 and divisor 1. *)
Lemma normalised_row_stats (n : nat) (f : nat -> R) :
  (0 < n)%nat ->
  let d := fun j => (f j - np.row_mean n f)%R in
  let s := if Req_dec_T (np.row_std n d) 0 then 1%R else np.row_std n d in
  let g := fun j => (d j / s)%R in
  np.row_mean n g = 0%R
  /\ (if Req_dec_T (np.row_std n (fun j => (g j - np.row_mean n g)%R)) 0
      then 1%R else np.row_std n (fun j => (g j - np.row_mean n g)%R)) = 1%R.
Proof.
  intros Hn d s g.
  assert (Hd : np.row_mean n d = 0%R) by (by apply row_mean_demean).
  assert (Hs : s <> 0%R) by apply pre_divisor_nonzero.
  assert (Hg : np.row_mean n g = 0%R).
  { unfold g, Rdiv. rewrite row_mean_scale, Hd. ring. }
  split; [done|].
  set (M := np.row_mean n (fun j => (d j * d j)%R)).
  assert (HM : (0 <= M)%R) by apply row_mean_squares_nonneg.
  assert (Hsd : np.row_std n d = sqrt M) by (by apply row_std_centred).
  assert (Hg2 : np.row_std n (fun j => (g j - np.row_mean n g)%R)
                = sqrt (M / (s * s))).
  { rewrite row_std_centred.
    - f_equal. rewrite Hg.
      rewrite (row_mean_ext n _ (fun j => (d j * d j * / (s * s))%R)).
      + by rewrite row_mean_scale.
      + intros j _. unfold g. by field.
    - rewrite Hg. rewrite (row_mean_ext n _ g); [done|]. intros; ring. }
  rewrite Hg2. unfold s in *. clear s g Hg Hg2. rewrite Hsd in *.
  destruct (Req_dec_T (sqrt M) 0) as [Hz|Hnz].
  - replace (M / (1 * 1))%R with M by field. rewrite Hz.
    by destruct (Req_dec_T 0 0).
  - rewrite sqrt_sqrt by done.
    replace (M / M)%R with 1%R.
    + rewrite sqrt_1. destruct (Req_dec_T 1 0); [lra|done].
    + field. intros ->. by rewrite sqrt_0 in Hnz.
Qed.

(** The standard deviation of a row does not change when its mean is
    subtracted. *)
Lemma row_std_demean (n : nat) (f : nat -> R) :
  np.row_std n (fun j => (f j - np.row_mean n f)%R) = np.row_std n f.
Proof.
  destruct n as [|n]; [done|].
  unfold np.row_std. rewrite row_mean_demean by lia. f_equal.
  apply row_mean_ext. intros j _. ring.
Qed.



(** C9. [annotate_window_post] returns the transpose: the shape with its two
    axes exchanged and every entry unchanged at the exchanged index; the
    transpose of the result is the array it was given. *)
Theorem annotate_window_post_transpose (pred : np.ndarray)
    (argdict : gmap string R) :
  let post := PhaseNet.annotate_window_post pred argdict in
  np.shape post = (snd (np.shape pred), fst (np.shape pred))
  /\ (forall c t, np.item post t c = np.item pred c t)
  /\ np.T post = pred.
Proof.
  intros post. unfold post, PhaseNet.annotate_window_post.
  destruct pred as [[classes samples] f]. done.
Qed.

(** C10. [annotate_window_pre] applied to its own result returns that
    result: the same shape and the same entry at every index of it. *)
Theorem annotate_window_pre_idempotent (window : np.ndarray)
    (argdict : gmap string R) :
  np.array_eq
    (PhaseNet.annotate_window_pre
       (PhaseNet.annotate_window_pre window argdict) argdict)
    (PhaseNet.annotate_window_pre window argdict).
Proof.
  split; [done|].
  intros i j _ Hj.
  change (j < snd (np.shape window))%nat in Hj.
  set (n := snd (np.shape window)) in *.
  assert (Hn : (0 < n)%nat) by lia.
  destruct (normalised_row_stats n (np.item window i) Hn) as [Hm Hdv].
  set (g := fun j => np.item (PhaseNet.annotate_window_pre window argdict) i j).
  change (np.row_mean n g = 0%R) in Hm.
  change ((if Req_dec_T (np.row_std n (fun j => (g j - np.row_mean n g)%R)) 0
           then 1%R
           else np.row_std n (fun j => (g j - np.row_mean n g)%R)) = 1%R)
    in Hdv.
  change (((g j - np.row_mean n g)
           / (if Req_dec_T
                   (np.row_std n (fun j => (g j - np.row_mean n g)%R)) 0
              then 1
              else np.row_std n (fun j => (g j - np.row_mean n g)%R)))%R
          = g j).
  rewrite Hdv, Hm. field.
Qed.

(** ** The order on picks *)

Lemma string_compare_refl (s : string) : String.compare s s = Eq.
Proof.
  induction s as [|a s IH]; [done|]. simpl.
  unfold Ascii.compare. by rewrite N.compare_refl.
Qed.

Lemma ascii_compare_lt_trans (a b c : Ascii.ascii) :
  Ascii.compare a b = Lt -> Ascii.compare b c = Lt -> Ascii.compare a c = Lt.
Proof.
  unfold Ascii.compare. rewrite !N.compare_lt_iff. lia.
Qed.

Lemma string_compare_lt_trans (s1 s2 s3 : string) :
  String.compare s1 s2 = Lt -> String.compare s2 s3 = Lt ->
  String.compare s1 s3 = Lt.
Proof.
  revert s2 s3. induction s1 as [|a s1 IH]; intros [|b s2] [|c s3]; simpl;
    try done.
  destruct (Ascii.compare a b) eqn:Eab; [|clear IH|done];
    (destruct (Ascii.compare b c) eqn:Ebc; [| |done]); intros H12 H23.
  - apply Ascii.compare_eq_iff in Eab as ->. rewrite Ebc. by eapply IH.
  - apply Ascii.compare_eq_iff in Eab as ->. by rewrite Ebc.
  - apply Ascii.compare_eq_iff in Ebc as <-. by rewrite Eab.
  - by rewrite (ascii_compare_lt_trans a b c).
Qed.

Lemma Z_compare_lt_trans (a b c : Z) :
  (a ?= b) = Lt -> (b ?= c) = Lt -> (a ?= c) = Lt.
Proof. rewrite !Z.compare_lt_iff. lia. Qed.

Lemma pick_compare_refl (a : Pick) : pick_compare a a = Eq.
Proof.
  destruct a as [[i t] p]. simpl.
  by rewrite string_compare_refl, Z.compare_refl, string_compare_refl.
Qed.

Lemma pick_compare_eq (a b : Pick) : pick_compare a b = Eq -> a = b.
Proof.
  destruct a as [[ia ta] pa], b as [[ib tb] pb]. simpl.
  destruct (String.compare ia ib) eqn:Ei; try done.
  destruct (ta ?= tb) eqn:Et; try done.
  intros Ep.
  apply String.compare_eq_iff in Ei, Ep. apply Z.compare_eq in Et.
  by subst.
Qed.

Lemma pick_compare_antisym (a b : Pick) :
  pick_compare a b = CompOpp (pick_compare b a).
Proof.
  destruct a as [[ia ta] pa], b as [[ib tb] pb]. simpl.
  rewrite (String.compare_antisym ib ia), (Z.compare_antisym ta tb),
    (String.compare_antisym pb pa).
  destruct (String.compare ia ib), (ta ?= tb), (String.compare pa pb); done.
Qed.

Lemma pick_compare_lt_trans (a b c : Pick) :
  pick_compare a b = Lt -> pick_compare b c = Lt -> pick_compare a c = Lt.
Proof.
  destruct a as [[ia ta] pa], b as [[ib tb] pb], c as [[ic tc] pc]. simpl.
  destruct (String.compare ia ib) eqn:Ei1; [| |done];
    (destruct (String.compare ib ic) eqn:Ei2; [| |done]);
    try (apply String.compare_eq_iff in Ei1 as ->);
    try (apply String.compare_eq_iff in Ei2 as <-);
    rewrite ?Ei1, ?Ei2, ?string_compare_refl,
      ?(string_compare_lt_trans ia ib ic) by done;
    try done.
  destruct (ta ?= tb) eqn:Et1; [| |done];
    (destruct (tb ?= tc) eqn:Et2; [| |done]);
    try (apply Z.compare_eq in Et1 as ->);
    try (apply Z.compare_eq in Et2 as <-);
    rewrite ?Et1, ?Et2, ?Z.compare_refl,
      ?(Z_compare_lt_trans ta tb tc) by done;
    try done.
  apply string_compare_lt_trans.
Qed.

#[local] Instance pick_le_total : Total pick_le.
Proof.
  intros a b. unfold pick_le. rewrite (pick_compare_antisym b a).
  destruct (pick_compare a b); simpl; [left|left|right]; done.
Qed.

#[local] Instance pick_le_trans : Transitive pick_le.
Proof.
  intros a b c. unfold pick_le.
  destruct (pick_compare a b) eqn:Eab; [| |done].
  - apply pick_compare_eq in Eab as ->. done.
  - destruct (pick_compare b c) eqn:Ebc; [| |done]; intros _ _.
    + apply pick_compare_eq in Ebc as <-. by rewrite Eab.
    + by rewrite (pick_compare_lt_trans a b c).
Qed.

#[local] Instance pick_le_antisym : AntiSymm (=) pick_le.
Proof.
  intros a b. unfold pick_le. rewrite (pick_compare_antisym b a).
  destruct (pick_compare a b) eqn:Eab; simpl; try done.
  intros _ _. by apply pick_compare_eq.
Qed.

(** The order in words: the trace id decides first, then the time, then the
    phase. *)
Lemma pick_le_lex (i1 i2 : string) (t1 t2 : Z) (p1 p2 : string) :
  pick_le (i1, t1, p1) (i2, t2, p2) <->
  String.compare i1 i2 = Lt
  \/ (i1 = i2 /\ (t1 < t2
                  \/ (t1 = t2 /\ String.compare p1 p2 <> Gt))).
Proof.
  unfold pick_le. simpl.
  destruct (String.compare i1 i2) eqn:Ei.
  - apply String.compare_eq_iff in Ei as ->.
    destruct (t1 ?= t2) eqn:Et.
    + apply Z.compare_eq in Et as ->. split.
      * intros H. right. split; [done|]. right. done.
      * intros [?|[_ [?|[_ ?]]]]; [done|lia|done].
    + apply Z.compare_lt_iff in Et. split; [|done]. intros _.
      right. split; [done|]. by left.
    + apply Z.compare_gt_iff in Et. split; [done|].
      intros [?|[_ [?|[? _]]]]; [done|lia|lia].
  - split; [by left|done].
  - split; [done|]. intros [?|[-> _]]; [done|].
    by rewrite string_compare_refl in Ei.
Qed.

Lemma sorted_StronglySorted (picks : list Pick) :
  StronglySorted pick_le (sorted picks).
Proof. apply StronglySorted_merge_sort; apply _. Qed.

Lemma sorted_Permutation (picks : list Pick) : sorted picks ≡ₚ picks.
Proof. apply merge_sort_Permutation. Qed.

(** Sorting forgets the order in which the picks were collected. *)
Lemma sorted_perm_eq (l1 l2 : list Pick) : l1 ≡ₚ l2 -> sorted l1 = sorted l2.
Proof.
  intros Hp. apply (StronglySorted_unique pick_le);
    [apply sorted_StronglySorted..|].
  by rewrite !sorted_Permutation.
Qed.

(** ** Pick extraction *)

(** The concatenated results of [mapM] do not depend, up to order, on the
    order of the list, nor on the order inside each result. *)
Lemma mapM_concat_pointwise {A B} (f g : A -> option (list B)) (l : list A) :
  (forall x, x ∈ l -> option_Forall2 (≡ₚ) (f x) (g x)) ->
  option_Forall2 (≡ₚ) (@concat B <$> mapM f l) (@concat B <$> mapM g l).
Proof.
  induction l as [|x l IH]; intros Hfg; [by constructor|].
  assert (Hx : option_Forall2 (≡ₚ) (f x) (g x))
    by (apply Hfg; by left).
  assert (Hl : option_Forall2 (≡ₚ) (@concat B <$> mapM f l)
                 (@concat B <$> mapM g l))
    by (apply IH; intros; apply Hfg; by right).
  cbn [mapM]. destruct Hx as [y y' Hy|]; [|by constructor].
  cbn [mbind option_bind].
  destruct (mapM f l) as [k|], (mapM g l) as [k'|]; inversion Hl; subst;
    constructor.
  simpl. by f_equiv.
Qed.

Lemma mapM_concat_Permutation {A B} (f : A -> option (list B))
    (l l' : list A) :
  l ≡ₚ l' ->
  option_Forall2 (≡ₚ) (@concat B <$> mapM f l) (@concat B <$> mapM f l').
Proof.
  induction 1 as [|x l l' _ IH|x y l|l l' l'' _ IH1 _ IH2].
  - by constructor.
  - cbn [mapM]. destruct (f x) as [ys|]; [|by constructor].
    cbn [mbind option_bind].
    destruct (mapM f l) as [k|], (mapM f l') as [k'|]; inversion IH; subst;
      constructor.
    simpl. by f_equiv.
  - cbn [mapM].
    destruct (f x) as [xs|], (f y) as [ys|], (mapM f l) as [k|];
      constructor.
    simpl. rewrite !app_assoc. f_equiv. apply Permutation_app_comm.
  - by etransitivity.
Qed.


Section classify_facts.

Variable trigger_onset : list R -> R -> R -> list (nat * nat).
Variable channel_matches : string -> string -> bool.

Local Abbreviation trace_picks := (PhaseNet.trace_picks trigger_onset).
Local Abbreviation phase_picks :=
  (PhaseNet.phase_picks trigger_onset channel_matches).
Local Abbreviation collect_picks :=
  (PhaseNet.collect_picks trigger_onset channel_matches).
Local Abbreviation classify_aggregate :=
  (PhaseNet.classify_aggregate trigger_onset channel_matches).

(** Every pick of a trace carries the phase the trace was read for. *)
Lemma trace_picks_phase phase thr trace (l : list Pick) :
  trace_picks phase thr trace = Some l ->
  forall p, p ∈ l -> pick_phase p = phase.
Proof.
  unfold PhaseNet.trace_picks. intros Hl p Hp.
  apply mapM_Some_1 in Hl.
  apply list_elem_of_lookup in Hp as [k Hk].
  destruct (Forall2_lookup_r _ _ _ _ _ Hl Hk) as ([s0 s1] & _ & Hf).
  destruct (times trace !! s0) as [dt|]; [|done].
  by injection Hf as <-.
Qed.

(** A pick found in the concatenation of the lists that [mapM] returns comes
    from one of the elements. *)
Lemma elem_of_concat_mapM {A B} (f : A -> option (list B)) (l : list A)
    (k : list (list B)) (y : B) :
  mapM f l = Some k -> y ∈ concat k ->
  exists x ys, x ∈ l /\ f x = Some ys /\ y ∈ ys.
Proof.
  intros Hk Hy. apply mapM_Some_1 in Hk.
  apply list_elem_of_In, in_concat in Hy as (ys & Hys & Hy).
  apply list_elem_of_In, list_elem_of_lookup in Hys as [i Hi].
  destruct (Forall2_lookup_r _ _ _ _ _ Hk Hi) as (x & Hx & Hf).
  exists x, ys. split; [by eapply list_elem_of_lookup_2|].
  split; [done|]. by apply list_elem_of_In.
Qed.

Lemma phase_picks_phase annotations argdict phase (l : list Pick) :
  phase_picks annotations argdict phase = Some l ->
  forall p, p ∈ l -> pick_phase p = phase /\ phase <> "N"%string.
Proof.
  unfold PhaseNet.phase_picks. intros Hl p Hp.
  destruct (String.eqb_spec phase "N") as [->|Hne].
  - injection Hl as <-. by apply elem_of_nil in Hp.
  - split; [|done].
    destruct (mapM _ _) as [k|] eqn:Hk; [|done].
    injection Hl as <-.
    destruct (elem_of_concat_mapM _ _ _ _ Hk Hp) as (tr & ys & _ & Hys & Hin).
    by eapply trace_picks_phase.
Qed.

Lemma collect_picks_phase m annotations argdict (l : list Pick) :
  collect_picks m annotations argdict = Some l ->
  forall p, p ∈ l ->
    pick_phase p ∈ PhaseNet.labels m /\ pick_phase p <> "N"%string.
Proof.
  unfold PhaseNet.collect_picks. intros Hl p Hp.
  destruct (mapM _ _) as [k|] eqn:Hk; [|done].
  injection Hl as <-.
  destruct (elem_of_concat_mapM _ _ _ _ Hk Hp) as (ph & ys & Hph & Hys & Hin).
  destruct (phase_picks_phase _ _ _ _ Hys p Hin) as [-> Hne]. done.
Qed.

Lemma classify_aggregate_collect m annotations argdict (picks : list Pick) :
  classify_aggregate m annotations argdict = Some picks ->
  exists collected,
    collect_picks m annotations argdict = Some collected
    /\ picks = sorted collected.
Proof.
  unfold PhaseNet.classify_aggregate. intros H.
  destruct (collect_picks m annotations argdict) as [c|]; [|done].
  injection H as <-. by exists c.
Qed.

(** C5. No pick that [classify_aggregate] returns has the noise label "N"
    as its phase: every returned triple carries one of the labels of the
    model, and not "N". *)
Theorem classify_aggregate_never_noise m annotations argdict
    (picks : list Pick) :
  classify_aggregate m annotations argdict = Some picks ->
  forall p, p ∈ picks ->
    pick_phase p <> "N"%string /\ pick_phase p ∈ PhaseNet.labels m.
Proof.
  intros Hc p Hp.
  apply classify_aggregate_collect in Hc as (collected & Hcol & ->).
  rewrite sorted_Permutation in Hp.
  destruct (collect_picks_phase _ _ _ _ Hcol p Hp). done.
Qed.

Lemma phase_picks_Permutation annotations annotations' argdict phase :
  annotations ≡ₚ annotations' ->
  option_Forall2 (≡ₚ) (phase_picks annotations argdict phase)
    (phase_picks annotations' argdict phase).
Proof.
  intros Hp. unfold PhaseNet.phase_picks.
  destruct (String.eqb phase "N"); [by constructor|].
  apply mapM_concat_Permutation. unfold PhaseNet.select. by rewrite Hp.
Qed.

Lemma collect_picks_Permutation m m' annotations annotations' argdict :
  PhaseNet.labels m ≡ₚ PhaseNet.labels m' ->
  annotations ≡ₚ annotations' ->
  option_Forall2 (≡ₚ) (collect_picks m annotations argdict)
    (collect_picks m' annotations' argdict).
Proof.
  intros Hl Ha. unfold PhaseNet.collect_picks.
  etransitivity; [|by apply mapM_concat_Permutation].
  apply mapM_concat_pointwise. intros phase _.
  by apply phase_picks_Permutation.
Qed.

(** C6. The list that [classify_aggregate] returns is sorted by the order
    on triples, in which the trace id decides first, then the time, then the
    phase; it holds the picks collected over all phases and traces, each as
    often as it was collected; and it is the same list whatever the order of
    the labels and of the traces. *)
Theorem classify_aggregate_sorted m annotations argdict :
  (forall picks, classify_aggregate m annotations argdict = Some picks ->
     StronglySorted pick_le picks
     /\ exists collected,
          collect_picks m annotations argdict = Some collected
          /\ picks ≡ₚ collected)
  /\ (forall m' annotations',
        PhaseNet.labels m ≡ₚ PhaseNet.labels m' ->
        annotations ≡ₚ annotations' ->
        classify_aggregate m' annotations' argdict
        = classify_aggregate m annotations argdict)
  /\ (forall i1 i2 t1 t2 p1 p2,
        pick_le (i1, t1, p1) (i2, t2, p2) <->
        String.compare i1 i2 = Lt
        \/ (i1 = i2 /\ (t1 < t2
                        \/ (t1 = t2 /\ String.compare p1 p2 <> Gt)))).
Proof.
  split; [|split].
  - intros picks Hc.
    apply classify_aggregate_collect in Hc as (collected & Hcol & ->).
    split; [apply sorted_StronglySorted|].
    exists collected. split; [done|apply sorted_Permutation].
  - intros m' annotations' Hl Ha. unfold PhaseNet.classify_aggregate.
    destruct (collect_picks_Permutation m m' annotations annotations'
                argdict Hl Ha) as [c c' Hcc|]; [|done].
    simpl. f_equal. symmetry. by apply sorted_perm_eq.
  - apply pick_le_lex.
Qed.

(** The result depends on the trigger primitive only through its values at
    the threshold pairs that the code passes. *)
Lemma phase_picks_ext (g : list R -> R -> R -> list (nat * nat))
    annotations argdict phase :
  (phase <> "N"%string ->
   forall trace, trace ∈ annotations ->
     let on := PhaseNet.pick_threshold argdict phase in
     trigger_onset (data trace) on (on / 2)%R
     = g (data trace) on (on / 2)%R) ->
  phase_picks annotations argdict phase
  = PhaseNet.phase_picks g channel_matches annotations argdict phase.
Proof.
  intros Hfg. unfold PhaseNet.phase_picks.
  destruct (String.eqb_spec phase "N") as [->|Hne]; [done|].
  f_equal. apply Forall_mapM_ext, Forall_forall. intros trace Hin.
  apply list_elem_of_filter in Hin as [_ Hin].
  unfold PhaseNet.trace_picks. by rewrite (Hfg Hne trace Hin).
Qed.

(** [classify_aggregate] returns whenever the onsets that the primitive
    reports lie inside the traces. *)
Lemma classify_aggregate_returns m annotations argdict :
  (forall trace on off s0 s1,
     trace ∈ annotations ->
     (s0, s1) ∈ trigger_onset (data trace) on off ->
     (s0 < length (times trace))%nat) ->
  is_Some (classify_aggregate m annotations argdict).
Proof.
  intros Hin. unfold PhaseNet.classify_aggregate, PhaseNet.collect_picks.
  rewrite !fmap_is_Some. apply mapM_is_Some_2, Forall_forall.
  intros phase _. unfold PhaseNet.phase_picks. simpl.
  destruct (String.eqb phase "N"); [done|].
  rewrite fmap_is_Some. apply mapM_is_Some_2, Forall_forall.
  intros trace Htr. apply list_elem_of_filter in Htr as [_ Htr].
  unfold PhaseNet.trace_picks. simpl.
  apply mapM_is_Some_2, Forall_forall. intros [s0 s1] Hs. simpl.
  destruct (lookup_lt_is_Some_2 (times trace) s0) as [dt ->]; [|done].
  by eapply Hin.
Qed.

End classify_facts.

(** ** The theorems at concrete inputs *)

Lemma PhaseNet_forward_time_length_witness :
  n_channels zero_window = 3%nat
  /\ n_samples zero_window = PhaseNet.in_samples
  /\ exists y, PhaseNet.forward reference_model zero_window = Some y
               /\ n_samples y = n_samples zero_window
               /\ n_samples y = 3001%nat
               /\ n_channels y = 3%nat.
Proof.
  split; [reflexivity|]. split; [reflexivity|].
  apply (PhaseNet_forward_time_length 3 3 ["N"; "P"; "S"]%string zero_state
           zero_window); reflexivity.
Defined.

Lemma PhaseNet_forward_columns_sum_to_one_witness :
  n_channels zero_window = 3%nat
  /\ n_samples zero_window = PhaseNet.in_samples
  /\ (0 < 3)%nat
  /\ exists y, PhaseNet.forward reference_model zero_window = Some y
               /\ n_channels y = 3%nat
               /\ n_samples y = n_samples zero_window
               /\ n_samples y = 3001%nat
               /\ forall t, (t < n_samples y)%nat ->
                    big_sum (n_channels y) (fun c => entry y c t) = 1%R
                    /\ forall c, (c < n_channels y)%nat ->
                         (0 < entry y c t <= 1)%R.
Proof.
  split; [reflexivity|]. split; [reflexivity|]. split; [lia|].
  apply (PhaseNet_forward_columns_sum_to_one 3 3 ["N"; "P"; "S"]%string
           zero_state zero_window); [reflexivity|reflexivity|lia].
Defined.

(** Traces for N, P and S of one station, each with one trigger: a pick for
    P and a pick for S, none for N. *)
Example classify_aggregate_example :
  PhaseNet.classify_aggregate one_trigger String.eqb reference_model
    [example_trace "S" 2000; example_trace "N" 0; example_trace "P" 1000] ∅
  = Some [("NN.STA."%string, 1010, "P"%string);
          ("NN.STA."%string, 2010, "S"%string)].
Proof. vm_compute. reflexivity. Qed.

(** The same traces and labels supplied in another order give the same
    list. *)
Example classify_aggregate_example_reordered :
  PhaseNet.classify_aggregate one_trigger String.eqb
    (PhaseNet.init 3 3 ["S"; "P"; "N"]%string zero_state)
    [example_trace "P" 1000; example_trace "S" 2000; example_trace "N" 0] ∅
  = Some [("NN.STA."%string, 1010, "P"%string);
          ("NN.STA."%string, 2010, "S"%string)].
Proof. vm_compute. reflexivity. Qed.

Lemma classify_aggregate_never_noise_witness :
  PhaseNet.classify_aggregate one_trigger String.eqb reference_model
    [example_trace "S" 2000; example_trace "N" 0; example_trace "P" 1000] ∅
  = Some [("NN.STA."%string, 1010, "P"%string);
          ("NN.STA."%string, 2010, "S"%string)]
  /\ ("NN.STA."%string, 2010, "S"%string)
       ∈ [("NN.STA."%string, 1010, "P"%string);
          ("NN.STA."%string, 2010, "S"%string)]
  /\ pick_phase ("NN.STA."%string, 2010, "S"%string) <> "N"%string
  /\ pick_phase ("NN.STA."%string, 2010, "S"%string)
       ∈ PhaseNet.labels reference_model.
Proof.
  assert (Hrun :
    PhaseNet.classify_aggregate one_trigger String.eqb reference_model
      [example_trace "S" 2000; example_trace "N" 0; example_trace "P" 1000] ∅
    = Some [("NN.STA."%string, 1010, "P"%string);
            ("NN.STA."%string, 2010, "S"%string)])
    by (vm_compute; reflexivity).
  assert (Hin : ("NN.STA."%string, 2010, "S"%string)
                ∈ [("NN.STA."%string, 1010, "P"%string);
                   ("NN.STA."%string, 2010, "S"%string)])
    by (right; left).
  split; [exact Hrun|]. split; [exact Hin|].
  exact (classify_aggregate_never_noise one_trigger String.eqb
           reference_model _ ∅ _ Hrun _ Hin).
Defined.

(** * Further properties *)

(** ** Conv1dSame: the output length by stride *)

(** X1. With stride 1, positive kernel size and dilation, and the right
    number of input channels, [Conv1dSame.forward] returns, and its output
    has [out_channels] channels and two samples more than the input. *)
Theorem Conv1dSame_stride1_adds_two ic oc k d w (x : Tensor) :
  0 < k -> 0 < d -> n_channels x = ic ->
  exists y, Conv1dSame.forward (Conv1dSame.init ic oc k 1 d w) x = Some y
            /\ n_channels y = oc
            /\ n_samples y = (n_samples x + 2)%nat.
Proof.
  intros Hk Hd Hc.
  pose proof (Conv1dSame_stride1_shape ic oc k d w x Hk Hd Hc) as Hs.
  destruct (Conv1dSame.forward _ x) as [y|]; [|done].
  injection Hs as Hs. exists y. unfold n_channels, n_samples at 1.
  by rewrite Hs.
Qed.

(** With stride 4 and an even [dilation * (kernel_size - 1)] (an odd kernel,
    say), the padded convolution has length ceil(L / 4), and raises on an
    empty time axis. *)
Lemma Conv1dSame_stride4_shape ic oc k d w (x : Tensor) :
  0 < k -> 0 < d -> Z.even (d * (k - 1)) = true -> n_channels x = ic ->
  shape <$> Conv1dSame.forward (Conv1dSame.init ic oc k 4 d w) x
  = if (n_samples x =? 0)%nat then None
    else Some (oc, ((n_samples x + 3) / 4)%nat).
Proof.
  intros Hk Hd Hev Hc.
  pose proof (ceil_half_double (1 - 4 + d * (k - 1))) as Hp.
  assert (Hodd : Z.odd (1 - 4 + d * (k - 1)) = true).
  { replace (1 - 4 + d * (k - 1)) with (d * (k - 1) - 3) by lia.
    rewrite Z.odd_sub, <- Z.negb_even, Hev. done. }
  rewrite Hodd in Hp.
  rewrite Conv1dSame_forward_shape, cut_last_element_spec.
  simpl (4 =? 1). rewrite andb_false_r, andb_false_l.
  set (q := ((n_samples x + 3) / 4)%nat).
  assert (Hq : (4 * q <= n_samples x + 3 < 4 * q + 4)%nat).
  { pose proof (Nat.div_mod_eq (n_samples x + 3) 4).
    pose proof (Nat.mod_upper_bound (n_samples x + 3) 4 ltac:(lia)).
    unfold q. lia. }
  clearbody q.
  unfold Conv1d.out_shape. simpl.
  set (p := Conv1dSame.ceil_half (1 - 4 + d * (k - 1))) in *.
  fold (n_channels x). fold (n_samples x). rewrite Hc, Nat.eqb_refl. simpl.
  replace (p + 1 <? 0) with false by (symmetry; apply Z.ltb_ge; nia).
  replace (d <=? 0) with false by (symmetry; apply Z.leb_gt; lia).
  replace (k <=? 0) with false by (symmetry; apply Z.leb_gt; lia).
  simpl.
  destruct (n_samples x =? 0)%nat eqn:E0.
  - apply Nat.eqb_eq in E0. rewrite E0.
    by replace (_ <? _) with true by (symmetry; apply Z.ltb_lt; lia).
  - apply Nat.eqb_neq in E0.
    replace (_ <? _) with false by (symmetry; apply Z.ltb_ge; lia).
    simpl. do 2 f_equal.
    replace (Z.of_nat (n_samples x) + 2 * (p + 1) - (d * (k - 1) + 1))
      with (Z.of_nat (n_samples x) - 1) by lia.
    Z.div_mod_to_equations. lia.
Qed.

(** X2. With stride 4, positive kernel size and dilation with
    [dilation * (kernel_size - 1)] even, and the right number of input
    channels, [Conv1dSame.forward] raises on an empty time axis and
    otherwise returns ceil(L / 4) samples for an input of L samples. *)
Theorem Conv1dSame_stride4_ceil ic oc k d w (x : Tensor) :
  0 < k -> 0 < d -> Z.even (d * (k - 1)) = true -> n_channels x = ic ->
  (n_samples x = 0%nat ->
   Conv1dSame.forward (Conv1dSame.init ic oc k 4 d w) x = None)
  /\ ((0 < n_samples x)%nat ->
      exists y,
        Conv1dSame.forward (Conv1dSame.init ic oc k 4 d w) x = Some y
        /\ n_channels y = oc
        /\ (4 * (n_samples y - 1) < n_samples x <= 4 * n_samples y)%nat).
Proof.
  intros Hk Hd Hev Hc.
  pose proof (Conv1dSame_stride4_shape ic oc k d w x Hk Hd Hev Hc) as Hs.
  split.
  - intros H0. rewrite H0 in Hs. simpl in Hs.
    by destruct (Conv1dSame.forward _ x).
  - intros Hpos.
    replace (n_samples x =? 0)%nat with false in Hs
      by (symmetry; apply Nat.eqb_neq; lia).
    destruct (Conv1dSame.forward _ x) as [y|]; [|done].
    injection Hs as Hs. exists y. split; [done|].
    pose proof (Nat.div_mod_eq (n_samples x + 3) 4) as Hdm.
    pose proof (Nat.mod_upper_bound (n_samples x + 3) 4 ltac:(lia)) as Hlt.
    assert (Hn : n_samples y = ((n_samples x + 3) / 4)%nat)
      by (unfold n_samples at 1; by rewrite Hs).
    split; [unfold n_channels; by rewrite Hs|].
    rewrite Hn. lia.
Qed.

(** ** The network: the window lengths it accepts *)

Lemma block_None (layer : Tensor -> option Tensor) (bn : BatchNorm1d.t)
    (x : Tensor) :
  layer x = None -> PhaseNet.block layer bn x = None.
Proof. unfold PhaseNet.block. by intros ->. Qed.

(** An encoder stage of the network: ceil(L / 4) samples. *)
Lemma encoder_block ic oc w bnp (x : Tensor) (L : nat) :
  shape x = (ic, L) -> (1 <= L)%nat ->
  exists z,
    PhaseNet.block (Conv1dSame.forward (Conv1dSame.init ic oc 7 4 1 w))
      (BatchNorm1d.mk oc bnp) x = Some z
    /\ shape z = (oc, ((L + 3) / 4)%nat).
Proof.
  intros Hx HL. apply block_shape; [|done].
  rewrite Conv1dSame_stride4_shape; [|done|done|done|].
  - unfold n_samples. rewrite Hx. simpl snd.
    by replace (L =? 0)%nat with false by (symmetry; apply Nat.eqb_neq; lia).
  - unfold n_channels. by rewrite Hx.
Qed.

(** A decoder stage of the network: [4*L + 3 - 2*padding + output_padding]
    samples. *)
Lemma decoder_block ic oc p op w bnp (x : Tensor) (L : nat) :
  shape x = (ic, L) -> (1 <= L)%nat -> 0 <= p <= 3 -> 0 <= op <= 3 ->
  exists z,
    PhaseNet.block
      (ConvTranspose1d.forward (ConvTranspose1d.mk ic oc 7 4 p op w))
      (BatchNorm1d.mk oc bnp) x = Some z
    /\ shape z = (oc, Z.to_nat (4 * Z.of_nat L + 3 - 2 * p + op)).
Proof.
  intros Hx HL Hp Hop. apply block_shape; [|done].
  rewrite ConvTranspose1d_forward_shape, Hx.
  unfold ConvTranspose1d.out_shape. simpl.
  rewrite Nat.eqb_refl. simpl.
  replace (p <? 0) with false by (symmetry; apply Z.ltb_ge; lia).
  replace (op <? 0) with false by (symmetry; apply Z.ltb_ge; lia).
  change (Z.max 4 1) with 4.
  replace (op <? 4) with true by (symmetry; apply Z.ltb_lt; lia).
  simpl.
  replace (_ <=? 0) with false by (symmetry; apply Z.leb_gt; lia).
  do 3 f_equal. lia.
Qed.

(** The output layer keeps the length. *)
Lemma out_layer_shape cl w (x : Tensor) (L : nat) :
  shape x = ((8 + 8)%nat, L) -> (1 <= L)%nat ->
  shape <$> ConvTranspose1d.forward (ConvTranspose1d.mk 16 cl 1 1 0 0 w) x
  = Some (cl, L).
Proof.
  intros Hx HL. rewrite ConvTranspose1d_forward_shape, Hx.
  unfold ConvTranspose1d.out_shape. simpl.
  replace (_ <=? 0) with false by (symmetry; apply Z.leb_gt; lia).
  do 2 f_equal. lia.
Qed.

Lemma cat_cases (a b : Tensor) (ca cb na nb : nat) :
  shape a = (ca, na) -> shape b = (cb, nb) ->
  (na = nb /\ exists z, cat a b = Some z /\ shape z = ((ca + cb)%nat, na))
  \/ (na <> nb /\ cat a b = None).
Proof.
  intros Ha Hb. destruct (decide (na = nb)) as [->|Hne].
  - left. split; [done|]. by apply cat_shape.
  - right. split; [done|]. unfold cat, n_samples. rewrite Ha, Hb. simpl.
    by replace (na =? nb)%nat with false
      by (symmetry; by apply Nat.eqb_neq).
Qed.

(** The shape that [forward] returns on a window of the right channel count
    and of at least one sample: the four concatenations decide. *)
Lemma PhaseNet_forward_cases ic cl phases sd (x : Tensor) (L : nat) :
  shape x = (ic, L) -> (1 <= L)%nat ->
  let L1 := ((L + 3) / 4)%nat in
  let L2 := ((L1 + 3) / 4)%nat in
  let L3 := ((L2 + 3) / 4)%nat in
  let L4 := ((L3 + 3) / 4)%nat in
  shape <$> PhaseNet.forward (PhaseNet.init ic cl phases sd) x
  = if decide ((4 * L4 - 1 = L3 /\ 4 * L3 = L2
                /\ 4 * L2 - 1 = L1 /\ 4 * L1 - 3 = L)%nat)
    then Some (cl, L) else None.
Proof.
  intros Hx HL L1 L2 L3 L4.
  assert (H1 : (4 * L1 <= L + 3 < 4 * L1 + 4)%nat).
  { pose proof (Nat.div_mod_eq (L + 3) 4).
    pose proof (Nat.mod_upper_bound (L + 3) 4 ltac:(lia)). unfold L1. lia. }
  assert (H2 : (4 * L2 <= L1 + 3 < 4 * L2 + 4)%nat).
  { pose proof (Nat.div_mod_eq (L1 + 3) 4).
    pose proof (Nat.mod_upper_bound (L1 + 3) 4 ltac:(lia)). unfold L2. lia. }
  assert (H3 : (4 * L3 <= L2 + 3 < 4 * L3 + 4)%nat).
  { pose proof (Nat.div_mod_eq (L2 + 3) 4).
    pose proof (Nat.mod_upper_bound (L2 + 3) 4 ltac:(lia)). unfold L3. lia. }
  assert (H4 : (4 * L4 <= L3 + 3 < 4 * L4 + 4)%nat).
  { pose proof (Nat.div_mod_eq (L3 + 3) 4).
    pose proof (Nat.mod_upper_bound (L3 + 3) 4 ltac:(lia)). unfold L4. lia. }
  set (cp := PhaseNet.conv_params sd). set (np := PhaseNet.norm_params sd).
  unfold PhaseNet.forward.
  change (PhaseNet.inc (PhaseNet.init ic cl phases sd))
    with (Conv1d.mk ic 8 1 1 0 1 (cp "inc"%string)).
  change (PhaseNet.in_bn (PhaseNet.init ic cl phases sd))
    with (BatchNorm1d.mk 8 (np "in_bn"%string)).
  change (PhaseNet.conv1 (PhaseNet.init ic cl phases sd))
    with (Conv1dSame.init 8 11 7 4 1 (cp "conv1"%string)).
  change (PhaseNet.bnd1 (PhaseNet.init ic cl phases sd))
    with (BatchNorm1d.mk 11 (np "bnd1"%string)).
  change (PhaseNet.conv2 (PhaseNet.init ic cl phases sd))
    with (Conv1dSame.init 11 16 7 4 1 (cp "conv2"%string)).
  change (PhaseNet.bnd2 (PhaseNet.init ic cl phases sd))
    with (BatchNorm1d.mk 16 (np "bnd2"%string)).
  change (PhaseNet.conv3 (PhaseNet.init ic cl phases sd))
    with (Conv1dSame.init 16 22 7 4 1 (cp "conv3"%string)).
  change (PhaseNet.bnd3 (PhaseNet.init ic cl phases sd))
    with (BatchNorm1d.mk 22 (np "bnd3"%string)).
  change (PhaseNet.conv4 (PhaseNet.init ic cl phases sd))
    with (Conv1dSame.init 22 32 7 4 1 (cp "conv4"%string)).
  change (PhaseNet.bnd4 (PhaseNet.init ic cl phases sd))
    with (BatchNorm1d.mk 32 (np "bnd4"%string)).
  change (PhaseNet.up1 (PhaseNet.init ic cl phases sd))
    with (ConvTranspose1d.mk 32 22 7 4 2 0 (cp "up1"%string)).
  change (PhaseNet.bnu1 (PhaseNet.init ic cl phases sd))
    with (BatchNorm1d.mk 22 (np "bnu1"%string)).
  change (PhaseNet.up2 (PhaseNet.init ic cl phases sd))
    with (ConvTranspose1d.mk 44 16 7 4 2 1 (cp "up2"%string)).
  change (PhaseNet.bnu2 (PhaseNet.init ic cl phases sd))
    with (BatchNorm1d.mk 16 (np "bnu2"%string)).
  change (PhaseNet.up3 (PhaseNet.init ic cl phases sd))
    with (ConvTranspose1d.mk 32 11 7 4 2 0 (cp "up3"%string)).
  change (PhaseNet.bnu3 (PhaseNet.init ic cl phases sd))
    with (BatchNorm1d.mk 11 (np "bnu3"%string)).
  change (PhaseNet.up4 (PhaseNet.init ic cl phases sd))
    with (ConvTranspose1d.mk 22 8 7 4 3 0 (cp "up4"%string)).
  change (PhaseNet.bnu4 (PhaseNet.init ic cl phases sd))
    with (BatchNorm1d.mk 8 (np "bnu4"%string)).
  change (PhaseNet.out (PhaseNet.init ic cl phases sd))
    with (ConvTranspose1d.mk 16 cl 1 1 0 0 (cp "out"%string)).
  destruct (block_shape (Conv1d.forward (Conv1d.mk ic 8 1 1 0 1 (cp "inc"%string)))
              (BatchNorm1d.mk 8 (np "in_bn"%string)) x (8%nat, L))
    as (x_in & -> & Hin); [|done|].
  { rewrite Conv1d_forward_shape, Hx. unfold Conv1d.out_shape. simpl.
    rewrite Nat.eqb_refl. simpl.
    replace (_ <? 1) with false by (symmetry; apply Z.ltb_ge; lia).
    do 3 f_equal. rewrite Z.div_1_r. lia. }
  cbn [mbind option_bind].
  destruct (encoder_block 8 11 (cp "conv1"%string) (np "bnd1"%string)
              x_in L Hin HL) as (x1 & -> & Hx1).
  cbn [mbind option_bind]. change (shape x1 = (11%nat, L1)) in Hx1.
  destruct (encoder_block 11 16 (cp "conv2"%string) (np "bnd2"%string)
              x1 _ Hx1 ltac:(lia)) as (x2 & -> & Hx2).
  cbn [mbind option_bind]. change (shape x2 = (16%nat, L2)) in Hx2.
  destruct (encoder_block 16 22 (cp "conv3"%string) (np "bnd3"%string)
              x2 _ Hx2 ltac:(lia)) as (x3 & -> & Hx3).
  cbn [mbind option_bind]. change (shape x3 = (22%nat, L3)) in Hx3.
  destruct (encoder_block 22 32 (cp "conv4"%string) (np "bnd4"%string)
              x3 _ Hx3 ltac:(lia)) as (x4 & -> & Hx4).
  cbn [mbind option_bind]. change (shape x4 = (32%nat, L4)) in Hx4.
  clearbody L1 L2 L3 L4.
  destruct (decoder_block 32 22 2 0 (cp "up1"%string) (np "bnu1"%string)
              x4 _ Hx4 ltac:(lia) ltac:(lia) ltac:(lia)) as (u1 & -> & Hu1).
  cbn [mbind option_bind].
  destruct (cat_cases u1 x3 _ _ _ _ Hu1 Hx3) as [(E1 & c1 & -> & Hc1)|(E1 & ->)];
    [|cbn [mbind option_bind]; case_decide; [lia|done]].
  cbn [mbind option_bind].
  destruct (decoder_block 44 16 2 1 (cp "up2"%string) (np "bnu2"%string)
              c1 _ Hc1 ltac:(lia) ltac:(lia) ltac:(lia)) as (u2 & -> & Hu2).
  cbn [mbind option_bind].
  destruct (cat_cases u2 x2 _ _ _ _ Hu2 Hx2) as [(E2 & c2 & -> & Hc2)|(E2 & ->)];
    [|cbn [mbind option_bind]; case_decide; [lia|done]].
  cbn [mbind option_bind].
  destruct (decoder_block 32 11 2 0 (cp "up3"%string) (np "bnu3"%string)
              c2 _ Hc2 ltac:(lia) ltac:(lia) ltac:(lia)) as (u3 & -> & Hu3).
  cbn [mbind option_bind].
  destruct (cat_cases u3 x1 _ _ _ _ Hu3 Hx1) as [(E3 & c3 & -> & Hc3)|(E3 & ->)];
    [|cbn [mbind option_bind]; case_decide; [lia|done]].
  cbn [mbind option_bind].
  destruct (decoder_block 22 8 3 0 (cp "up4"%string) (np "bnu4"%string)
              c3 _ Hc3 ltac:(lia) ltac:(lia) ltac:(lia)) as (u4 & -> & Hu4).
  cbn [mbind option_bind].
  destruct (cat_cases u4 x_in _ _ _ _ Hu4 Hin) as [(E4 & c4 & -> & Hc4)|(E4 & ->)];
    [|cbn [mbind option_bind]; case_decide; [lia|done]].
  cbn [mbind option_bind].
  rewrite E4 in Hc4.
  pose proof (out_layer_shape cl (cp "out"%string) c4 L Hc4 HL) as Ho.
  destruct (ConvTranspose1d.forward _ c4) as [z|]; [|done].
  injection Ho as Ho. cbn [mbind option_bind fmap option_fmap option_map].
  cbn [softmax shape]. rewrite Ho.
  case_decide; [done|lia].
Qed.

(** A window of the wrong channel count, or an empty one, is refused by
    the first layer. *)
Lemma PhaseNet_forward_refuses ic cl phases sd (x : Tensor) :
  n_channels x <> ic \/ n_samples x = 0%nat ->
  PhaseNet.forward (PhaseNet.init ic cl phases sd) x = None.
Proof.
  intros Hbad. unfold PhaseNet.forward.
  rewrite block_None; [done|].
  unfold Conv1d.forward, Conv1d.out_shape. simpl.
  fold (n_channels x). fold (n_samples x).
  destruct (n_channels x =? ic)%nat eqn:Ec; [|done].
  apply Nat.eqb_eq in Ec. destruct Hbad as [Hc|H0]; [done|].
  by rewrite H0.
Qed.

(** The lengths that pass the four concatenations. *)
Lemma skip_lengths_iff (L : nat) :
  (1 <= L)%nat ->
  let L1 := ((L + 3) / 4)%nat in
  let L2 := ((L1 + 3) / 4)%nat in
  let L3 := ((L2 + 3) / 4)%nat in
  let L4 := ((L3 + 3) / 4)%nat in
  (4 * L4 - 1 = L3 /\ 4 * L3 = L2 /\ 4 * L2 - 1 = L1 /\ 4 * L1 - 3 = L)%nat
  <-> exists n, (0 < n)%nat /\ L = (256 * n - 71)%nat.
Proof.
  intros HL L1 L2 L3 L4.
  assert (H1 : (4 * L1 <= L + 3 < 4 * L1 + 4)%nat).
  { pose proof (Nat.div_mod_eq (L + 3) 4).
    pose proof (Nat.mod_upper_bound (L + 3) 4 ltac:(lia)). unfold L1. lia. }
  assert (H2 : (4 * L2 <= L1 + 3 < 4 * L2 + 4)%nat).
  { pose proof (Nat.div_mod_eq (L1 + 3) 4).
    pose proof (Nat.mod_upper_bound (L1 + 3) 4 ltac:(lia)). unfold L2. lia. }
  assert (H3 : (4 * L3 <= L2 + 3 < 4 * L3 + 4)%nat).
  { pose proof (Nat.div_mod_eq (L2 + 3) 4).
    pose proof (Nat.mod_upper_bound (L2 + 3) 4 ltac:(lia)). unfold L3. lia. }
  assert (H4 : (4 * L4 <= L3 + 3 < 4 * L4 + 4)%nat).
  { pose proof (Nat.div_mod_eq (L3 + 3) 4).
    pose proof (Nat.mod_upper_bound (L3 + 3) 4 ltac:(lia)). unfold L4. lia. }
  clearbody L1 L2 L3 L4. split.
  - intros (E1 & E2 & E3 & E4). exists L4. lia.
  - intros (n & Hn & ->). lia.
Qed.

(** X3. [forward] returns exactly on the windows that have [in_channels]
    channels and a time length of the form 256*n - 71 with n >= 1 (185, 441,
    ..., 3001, ...); on every other window it raises. When it returns, the
    output has one channel per class and the time length of the window. *)
Theorem PhaseNet_forward_returns_iff ic cl phases sd (x : Tensor) :
  (is_Some (PhaseNet.forward (PhaseNet.init ic cl phases sd) x)
   <-> n_channels x = ic
       /\ exists n, (0 < n)%nat /\ n_samples x = (256 * n - 71)%nat)
  /\ (forall y, PhaseNet.forward (PhaseNet.init ic cl phases sd) x = Some y ->
        shape y = (cl, n_samples x)).
Proof.
  destruct (decide (n_channels x = ic)) as [Hc|Hc];
    [destruct (decide (n_samples x = 0%nat)) as [H0|H0]|].
  - rewrite PhaseNet_forward_refuses by (by right). split; [|done].
    split; [by intros []|]. intros (_ & n & Hn & E). lia.
  - assert (Hx : shape x = (ic, n_samples x)).
    { destruct x as [[c n] f]. unfold n_channels in Hc. simpl in *.
      by subst. }
    pose proof (PhaseNet_forward_cases ic cl phases sd x (n_samples x) Hx
                  ltac:(lia)) as Hs.
    cbv zeta in Hs.
    pose proof (skip_lengths_iff (n_samples x) ltac:(lia)) as Hiff.
    cbv zeta in Hiff.
    destruct (PhaseNet.forward _ x) as [y|]; simpl in Hs.
    + case_decide as Hd; [|done]. injection Hs as Hs. split.
      * split; [|done]. intros _. split; [done|]. by apply Hiff.
      * by intros ? [= <-].
    + case_decide as Hd; [done|]. split; [|done].
      split; [by intros []|]. intros (_ & Hn). by apply Hiff in Hn.
  - rewrite PhaseNet_forward_refuses by (by left). split; [|done].
    split; [by intros []|]. by intros (? & _).
Qed.

(** ** Window preprocessing: what the result looks like *)

Lemma row_mean_affine (n : nat) (f : nat -> R) (a b : R) :
  (0 < n)%nat ->
  np.row_mean n (fun k => (a * f k + b)%R) = (a * np.row_mean n f + b)%R.
Proof.
  intros Hn. unfold np.row_mean.
  assert (Hs : big_sum n (fun k => (a * f k + b)%R)
               = (a * big_sum n f + INR n * b)%R).
  { clear Hn. induction n as [|n IH]; [simpl; lra|].
    cbn [big_sum]. rewrite IH, S_INR. lra. }
  rewrite Hs. field. by apply INR_pos_neq.
Qed.

(** The standard deviation of a demeaned row divided by its divisor: 1, or
    0 when the row was constant. *)
Lemma normalised_row_std (n : nat) (f : nat -> R) :
  (0 < n)%nat ->
  let d := fun j => (f j - np.row_mean n f)%R in
  let s := if Req_dec_T (np.row_std n d) 0 then 1%R else np.row_std n d in
  np.row_std n (fun j => (d j / s)%R)
  = if Req_dec_T (np.row_std n d) 0 then 0%R else 1%R.
Proof.
  intros Hn d s.
  assert (Hd : np.row_mean n d = 0%R) by (by apply row_mean_demean).
  assert (Hs : s <> 0%R) by apply pre_divisor_nonzero.
  set (M := np.row_mean n (fun j => (d j * d j)%R)).
  assert (HM : (0 <= M)%R) by apply row_mean_squares_nonneg.
  assert (Hsd : np.row_std n d = sqrt M) by (by apply row_std_centred).
  rewrite row_std_centred
    by (unfold Rdiv; rewrite row_mean_scale, Hd; ring).
  rewrite (row_mean_ext n _ (fun j => (d j * d j * / (s * s))%R))
    by (intros j _; by field).
  rewrite row_mean_scale. fold M. unfold s. rewrite Hsd.
  destruct (Req_dec_T (sqrt M) 0) as [Hz|Hnz].
  - replace (M * / (1 * 1))%R with M by field. done.
  - rewrite sqrt_sqrt by done.
    replace (M * / M)%R with 1%R; [apply sqrt_1|].
    field. intros ->. by rewrite sqrt_0 in Hnz.
Qed.

(** X4. On a window with at least one sample, every channel of the result
    of [annotate_window_pre] has mean 0, and standard deviation 1, or 0 when
    the channel of the window had standard deviation 0. *)
Theorem annotate_window_pre_standardised (window : np.ndarray)
    (argdict : gmap string R) (i : nat) :
  (0 < snd (np.shape window))%nat ->
  let out := PhaseNet.annotate_window_pre window argdict in
  np.item (np.mean out) i 0%nat = 0%R
  /\ np.item (np.std out) i 0%nat
     = if Req_dec_T (np.item (np.std window) i 0%nat) 0 then 0%R else 1%R.
Proof.
  intros Hn out. set (n := snd (np.shape window)) in *.
  split.
  - by destruct (normalised_row_stats n (np.item window i) Hn) as [Hm _].
  - pose proof (normalised_row_std n (np.item window i) Hn) as Hstd.
    cbv zeta in Hstd.
    change (np.item (np.std window) i 0%nat)
      with (np.row_std n (np.item window i)).
    rewrite <- (row_std_demean n (np.item window i)). exact Hstd.
Qed.

Lemma big_sum_squares_zero (n : nat) (h : nat -> R) :
  big_sum n (fun j => (h j * h j)%R) = 0%R ->
  forall j, (j < n)%nat -> h j = 0%R.
Proof.
  induction n as [|n IH]; intros Hsum j Hj; [lia|].
  cbn [big_sum] in Hsum.
  pose proof (big_sum_nonneg n (fun j => (h j * h j)%R)
                ltac:(intros; nra)) as Hpos.
  assert (Hn : (h n * h n = 0)%R) by nra.
  destruct (decide (j = n)) as [->|Hne]; [nra|].
  apply IH; [nra|lia].
Qed.

(** A row of standard deviation 0 is constant: its deviations vanish. *)
Lemma row_std_zero_demeaned (n : nat) (f : nat -> R) :
  (0 < n)%nat -> np.row_std n f = 0%R ->
  forall j, (j < n)%nat -> (f j - np.row_mean n f)%R = 0%R.
Proof.
  intros Hn Hstd. unfold np.row_std in Hstd.
  apply sqrt_eq_0 in Hstd.
  - unfold np.row_mean at 1 in Hstd.
    apply (big_sum_squares_zero n (fun j => (f j - np.row_mean n f)%R)).
    apply Rmult_integral in Hstd as [H0|Hinv]; [done|].
    pose proof (Rinv_neq_0_compat (INR n) (INR_pos_neq n Hn)). done.
  - apply (row_mean_squares_nonneg n (fun j => (f j - np.row_mean n f)%R)).
Qed.

(** One row: a positive gain and an offset do not change the result. *)
Lemma pre_row_affine (n : nat) (f f' : nat -> R) (a b : R) (j : nat) :
  (0 < a)%R -> (forall k, (k < n)%nat -> f' k = (a * f k + b)%R) ->
  (j < n)%nat ->
  ((f' j - np.row_mean n f')
   / (if Req_dec_T (np.row_std n f') 0 then 1 else np.row_std n f'))%R
  = ((f j - np.row_mean n f)
     / (if Req_dec_T (np.row_std n f) 0 then 1 else np.row_std n f))%R.
Proof.
  intros Ha Hf Hj. assert (Hn : (0 < n)%nat) by lia.
  assert (Hm : np.row_mean n f' = (a * np.row_mean n f + b)%R).
  { rewrite (row_mean_ext n f' (fun k => (a * f k + b)%R)) by done.
    by apply row_mean_affine. }
  assert (Hstd : np.row_std n f' = (a * np.row_std n f)%R).
  { unfold np.row_std. rewrite Hm.
    rewrite (row_mean_ext n _
               (fun k => ((f k - np.row_mean n f) * (f k - np.row_mean n f)
                          * (a * a))%R))
      by (intros k Hk; rewrite (Hf k Hk); ring).
    rewrite row_mean_scale, sqrt_mult_alt, sqrt_square by
      (try apply (row_mean_squares_nonneg n
                    (fun k => (f k - np.row_mean n f)%R)); lra).
    ring. }
  rewrite Hstd, Hm, (Hf j Hj).
  destruct (Req_dec_T (np.row_std n f) 0) as [Hz|Hnz].
  - rewrite Hz, Rmult_0_r. destruct (Req_dec_T 0 0); [|done].
    pose proof (row_std_zero_demeaned n f Hn Hz j Hj). nra.
  - destruct (Req_dec_T (a * np.row_std n f) 0) as [Hz'|Hnz']; [nra|].
    field. split; [done|lra].
Qed.

(** X5. [annotate_window_pre] does not see a positive gain or an offset of
    a channel: two windows of one shape, of which the second is, channel by
    channel, a positive multiple of the first plus a constant, have the same
    result. *)
Theorem annotate_window_pre_gain_offset (window window' : np.ndarray)
    (argdict : gmap string R) (a b : nat -> R) :
  np.shape window' = np.shape window ->
  (forall i, (0 < a i)%R) ->
  (forall i j, (j < snd (np.shape window))%nat ->
     np.item window' i j = (a i * np.item window i j + b i)%R) ->
  np.array_eq (PhaseNet.annotate_window_pre window' argdict)
              (PhaseNet.annotate_window_pre window argdict).
Proof.
  intros Hshape Ha Hab. split; [done|].
  intros i j _ Hj.
  change (j < snd (np.shape window'))%nat in Hj. rewrite Hshape in Hj.
  pose proof (pre_row_affine (snd (np.shape window)) (np.item window i)
                (np.item window' i) (a i) (b i) j (Ha i) (Hab i) Hj) as Hrow.
  rewrite <- (row_std_demean _ (np.item window' i)) in Hrow.
  rewrite <- (row_std_demean _ (np.item window i)) in Hrow.
  unfold PhaseNet.annotate_window_pre. cbn [np.item np.div_col np.sub_col
    np.set_where_zero np.std np.mean np.shape fst snd].
  rewrite Hshape. exact Hrow.
Qed.

(** ** Pick extraction: which picks, how many, and when it raises *)

Lemma concat_mapM_elem_of {A B} (f : A -> option (list B)) (l : list A)
    (k : list (list B)) (x : A) (ys : list B) (y : B) :
  mapM f l = Some k -> x ∈ l -> f x = Some ys -> y ∈ ys -> y ∈ concat k.
Proof.
  intros Hk Hx Hf Hy. apply mapM_Some_1 in Hk.
  apply list_elem_of_lookup in Hx as [i Hi].
  destruct (Forall2_lookup_l _ _ _ _ _ Hk Hi) as (ys' & Hys' & Hf').
  rewrite Hf in Hf'. injection Hf' as <-.
  apply list_elem_of_In, in_concat. exists ys.
  split; apply list_elem_of_In; [by eapply list_elem_of_lookup_2|done].
Qed.

Lemma concat_mapM_length {A B} (f : A -> option (list B)) (c : A -> nat)
    (l : list A) (k : list (list B)) :
  mapM f l = Some k ->
  (forall x ys, x ∈ l -> f x = Some ys -> length ys = c x) ->
  length (concat k) = sum_list (c <$> l).
Proof.
  revert k. induction l as [|x l IH]; intros k Hk Hc.
  - by injection Hk as <-.
  - cbn [mapM] in Hk. destruct (f x) as [ys|] eqn:Hf; [|done].
    cbn [mbind option_bind] in Hk.
    destruct (mapM f l) as [k'|] eqn:Hk'; [|done].
    injection Hk as <-. simpl. rewrite length_app.
    assert (Hx : length ys = c x) by (apply Hc; [by left|done]).
    assert (Hl : length (concat k') = sum_list (c <$> l)).
    { apply IH; [done|]. intros x' ys' Hin. apply Hc. by right. }
    by rewrite Hx, Hl.
Qed.

Section classify_more.

Variable trigger_onset : list R -> R -> R -> list (nat * nat).
Variable channel_matches : string -> string -> bool.

Local Abbreviation trace_picks := (PhaseNet.trace_picks trigger_onset).
Local Abbreviation phase_picks :=
  (PhaseNet.phase_picks trigger_onset channel_matches).
Local Abbreviation collect_picks :=
  (PhaseNet.collect_picks trigger_onset channel_matches).
Local Abbreviation classify_aggregate :=
  (PhaseNet.classify_aggregate trigger_onset channel_matches).

(** The triggers that the code reads for a phase on a trace. *)
Local Abbreviation triggers_of argdict phase trace :=
  (trigger_onset (data trace) (PhaseNet.pick_threshold argdict phase)
     (Rdiv (PhaseNet.pick_threshold argdict phase) 2%R)).

Local Abbreviation trace_id trace :=
  (network trace +:+ "." +:+ station trace +:+ "." +:+ location trace).

Lemma trace_picks_elem_of phase thr trace (l : list Pick) (p : Pick) :
  trace_picks phase thr trace = Some l ->
  p ∈ l <->
  exists s0 s1 dt,
    (s0, s1) ∈ trigger_onset (data trace) thr (thr / 2)%R
    /\ times trace !! s0 = Some dt
    /\ p = (trace_id trace, starttime trace + dt, phase).
Proof.
  unfold PhaseNet.trace_picks. intros Hl. apply mapM_Some_1 in Hl. split.
  - intros Hp. apply list_elem_of_lookup in Hp as [i Hi].
    destruct (Forall2_lookup_r _ _ _ _ _ Hl Hi) as ([s0 s1] & Hs & Hf).
    destruct (times trace !! s0) as [dt|] eqn:Hdt; [|done].
    injection Hf as <-. exists s0, s1, dt.
    split; [by eapply list_elem_of_lookup_2|done].
  - intros (s0 & s1 & dt & Hs & Hdt & ->).
    apply list_elem_of_lookup in Hs as [i Hi].
    destruct (Forall2_lookup_l _ _ _ _ _ Hl Hi) as (q & Hq & Hf).
    simpl in Hf. rewrite Hdt in Hf. injection Hf as <-.
    by eapply list_elem_of_lookup_2.
Qed.

Lemma collect_picks_elem_of m annotations argdict (l : list Pick)
    (p : Pick) :
  collect_picks m annotations argdict = Some l ->
  p ∈ l <->
  exists phase trace s0 s1 dt,
    phase ∈ PhaseNet.labels m /\ phase <> "N"%string
    /\ trace ∈ annotations
    /\ channel_matches (channel trace) ("PhaseNet_" +:+ phase) = true
    /\ (s0, s1) ∈ triggers_of argdict phase trace
    /\ times trace !! s0 = Some dt
    /\ p = (trace_id trace, starttime trace + dt, phase).
Proof.
  unfold PhaseNet.collect_picks. intros Hl.
  destruct (mapM _ (PhaseNet.labels m)) as [k|] eqn:Hk; [|done].
  injection Hl as <-. split.
  - intros Hp.
    destruct (elem_of_concat_mapM _ _ _ _ Hk Hp)
      as (phase & ys & Hph & Hys & Hin).
    unfold PhaseNet.phase_picks in Hys.
    destruct (String.eqb_spec phase "N") as [->|Hne].
    { injection Hys as <-. by apply elem_of_nil in Hin. }
    destruct (mapM _ (PhaseNet.select _ _ _)) as [k'|] eqn:Hk'; [|done].
    injection Hys as <-.
    destruct (elem_of_concat_mapM _ _ _ _ Hk' Hin)
      as (trace & zs & Htr & Hzs & Hin').
    apply list_elem_of_filter in Htr as [Hm Htr].
    apply (trace_picks_elem_of _ _ _ _ p Hzs) in Hin'
      as (s0 & s1 & dt & Hs & Hdt & ->).
    by exists phase, trace, s0, s1, dt.
  - intros (phase & trace & s0 & s1 & dt & Hph & Hne & Htr & Hm & Hs & Hdt
            & ->).
    pose proof (mapM_Some_1 _ _ _ Hk) as Hall.
    apply list_elem_of_lookup in Hph as [i Hi].
    destruct (Forall2_lookup_l _ _ _ _ _ Hall Hi) as (ys & Hys & Hf).
    apply (concat_mapM_elem_of _ _ _ phase ys _ Hk);
      [by eapply list_elem_of_lookup_2|done|].
    unfold PhaseNet.phase_picks in Hf.
    destruct (String.eqb_spec phase "N") as [->|_]; [done|].
    destruct (mapM _ (PhaseNet.select _ _ _)) as [k'|] eqn:Hk'; [|done].
    injection Hf as <-.
    assert (Hsel : trace ∈ PhaseNet.select channel_matches annotations
                             ("PhaseNet_" +:+ phase))
      by (by apply list_elem_of_filter).
    pose proof (mapM_Some_1 _ _ _ Hk') as Hall'.
    apply list_elem_of_lookup in Hsel as [i' Hi'].
    destruct (Forall2_lookup_l _ _ _ _ _ Hall' Hi') as (zs & Hzs & Hg).
    apply (concat_mapM_elem_of _ _ _ trace zs _ Hk');
      [by eapply list_elem_of_lookup_2|done|].
    apply (trace_picks_elem_of _ _ _ _ _ Hg). by exists s0, s1, dt.
Qed.

(** X6. The picks that [classify_aggregate] returns are exactly the
    onsets: a triple is in the list if and only if, for a label other than
    "N", a trace of the annotations whose channel matches "PhaseNet_" and
    the label, and an interval that the trigger primitive reports on that
    trace for the label's thresholds, it is the trace id
    "network.station.location", the start time of the trace plus the time
    offset of the interval's first sample, and the label. *)
Theorem classify_aggregate_picks_iff m annotations argdict
    (picks : list Pick) (p : Pick) :
  classify_aggregate m annotations argdict = Some picks ->
  p ∈ picks <->
  exists phase trace s0 s1 dt,
    phase ∈ PhaseNet.labels m /\ phase <> "N"%string
    /\ trace ∈ annotations
    /\ channel_matches (channel trace) ("PhaseNet_" +:+ phase) = true
    /\ (s0, s1) ∈ triggers_of argdict phase trace
    /\ times trace !! s0 = Some dt
    /\ p = (trace_id trace, starttime trace + dt, phase).
Proof.
  intros Hc.
  apply classify_aggregate_collect in Hc as (collected & Hcol & ->).
  rewrite sorted_Permutation. by apply collect_picks_elem_of.
Qed.

(** X7. [classify_aggregate] returns one pick for every interval that the
    trigger primitive reports: the length of the list is the number of
    intervals, summed over the labels other than "N" and the traces
    selected for each. *)
Theorem classify_aggregate_length m annotations argdict
    (picks : list Pick) :
  classify_aggregate m annotations argdict = Some picks ->
  length picks
  = sum_list
      ((fun phase =>
          if String.eqb phase "N" then 0%nat
          else sum_list
                 ((fun trace => length (triggers_of argdict phase trace))
                  <$> PhaseNet.select channel_matches annotations
                        ("PhaseNet_" +:+ phase)))
       <$> PhaseNet.labels m).
Proof.
  intros Hc.
  apply classify_aggregate_collect in Hc as (collected & Hcol & ->).
  rewrite sorted_Permutation.
  unfold PhaseNet.collect_picks in Hcol.
  destruct (mapM _ (PhaseNet.labels m)) as [k|] eqn:Hk; [|done].
  injection Hcol as <-.
  apply (concat_mapM_length _ _ _ _ Hk).
  intros phase ys _ Hys. unfold PhaseNet.phase_picks in Hys.
  destruct (String.eqb phase "N"); [by injection Hys as <-|].
  destruct (mapM _ (PhaseNet.select _ _ _)) as [k'|] eqn:Hk'; [|done].
  injection Hys as <-.
  apply (concat_mapM_length _ _ _ _ Hk').
  intros trace zs _ Hzs. unfold PhaseNet.trace_picks in Hzs.
  symmetry. by apply length_mapM in Hzs.
Qed.

(** The loops end without raising if and only if every interval read
    starts inside its trace. *)
Lemma collect_picks_is_Some_iff m annotations argdict :
  is_Some (collect_picks m annotations argdict)
  <-> forall phase trace s0 s1,
        phase ∈ PhaseNet.labels m -> phase <> "N"%string ->
        trace ∈ annotations ->
        channel_matches (channel trace) ("PhaseNet_" +:+ phase) = true ->
        (s0, s1) ∈ triggers_of argdict phase trace ->
        (s0 < length (times trace))%nat.
Proof.
  unfold PhaseNet.collect_picks.
  rewrite !fmap_is_Some, mapM_is_Some, Forall_forall. split.
  - intros Hall phase trace s0 s1 Hph Hne Htr Hm Hs.
    specialize (Hall phase Hph). simpl in Hall.
    unfold PhaseNet.phase_picks in Hall.
    destruct (String.eqb_spec phase "N") as [HN|_]; [done|].
    rewrite fmap_is_Some, mapM_is_Some, Forall_forall in Hall.
    specialize (Hall trace ltac:(by apply list_elem_of_filter)).
    simpl in Hall. unfold PhaseNet.trace_picks in Hall.
    rewrite mapM_is_Some, Forall_forall in Hall.
    specialize (Hall (s0, s1) Hs). simpl in Hall.
    apply lookup_lt_is_Some.
    destruct (times trace !! s0) as [dt|]; [by eexists|].
    by destruct Hall.
  - intros Hin phase Hph. simpl. unfold PhaseNet.phase_picks.
    destruct (String.eqb_spec phase "N") as [->|Hne]; [done|].
    rewrite fmap_is_Some, mapM_is_Some, Forall_forall.
    intros trace Htr. apply list_elem_of_filter in Htr as [Hm Htr].
    simpl. unfold PhaseNet.trace_picks.
    rewrite mapM_is_Some, Forall_forall. intros [s0 s1] Hs. simpl.
    destruct (lookup_lt_is_Some_2 (times trace) s0) as [dt ->]; [|done].
    by eapply Hin.
Qed.

(** C7. For every label other than "N" the trigger-on threshold is the
    value of the configuration at the key of the label followed by
    "_threshold", or 0.3 when the key is absent, and the trigger-off
    threshold is half of it. The picks returned are exactly the onsets that
    the trigger primitive reports at these pairs (on, on / 2); a missing key
    never makes the function raise (it returns if and only if the onsets
    reported at these pairs lie inside their traces); the primitive is
    consulted at these pairs only (two primitives that agree there give the
    same result); and without a key for "P" the onsets that the primitive
    reports at (0.3, 0.15) on the traces selected for "P" are picked. *)
Theorem classify_aggregate_thresholds m annotations argdict :
  let on := fun phase : string =>
    match argdict !! (phase +:+ "_threshold") with
    | Some v => v
    | None => 0.3%R
    end in
  (forall picks (p : Pick),
     classify_aggregate m annotations argdict = Some picks ->
     p ∈ picks <->
     exists phase trace s0 s1 dt,
       phase ∈ PhaseNet.labels m /\ phase <> "N"%string
       /\ trace ∈ annotations
       /\ channel_matches (channel trace) ("PhaseNet_" +:+ phase) = true
       /\ (s0, s1) ∈ trigger_onset (data trace) (on phase) (on phase / 2)%R
       /\ times trace !! s0 = Some dt
       /\ p = (trace_id trace, starttime trace + dt, phase))
  /\ (is_Some (classify_aggregate m annotations argdict)
      <-> forall phase trace s0 s1,
            phase ∈ PhaseNet.labels m -> phase <> "N"%string ->
            trace ∈ annotations ->
            channel_matches (channel trace) ("PhaseNet_" +:+ phase) = true ->
            (s0, s1) ∈ trigger_onset (data trace) (on phase)
                         (on phase / 2)%R ->
            (s0 < length (times trace))%nat)
  /\ (forall g : list R -> R -> R -> list (nat * nat),
        (forall phase trace,
           phase ∈ PhaseNet.labels m -> phase <> "N"%string ->
           trace ∈ annotations ->
           trigger_onset (data trace) (on phase) (on phase / 2)%R
           = g (data trace) (on phase) (on phase / 2)%R) ->
        classify_aggregate m annotations argdict
        = PhaseNet.classify_aggregate g channel_matches m annotations
            argdict)
  /\ (argdict !! "P_threshold"%string = None ->
      forall picks trace s0 s1 dt,
        classify_aggregate m annotations argdict = Some picks ->
        "P"%string ∈ PhaseNet.labels m ->
        trace ∈ annotations ->
        channel_matches (channel trace) "PhaseNet_P" = true ->
        (s0, s1) ∈ trigger_onset (data trace) 0.3%R 0.15%R ->
        times trace !! s0 = Some dt ->
        (trace_id trace, starttime trace + dt, "P"%string) ∈ picks).
Proof.
  intros on.
  assert (Hon : forall phase, PhaseNet.pick_threshold argdict phase = on phase).
  { intros phase. unfold PhaseNet.pick_threshold, on.
    by destruct (argdict !! (phase +:+ "_threshold")). }
  assert (Hmem : forall picks (p : Pick),
     classify_aggregate m annotations argdict = Some picks ->
     p ∈ picks <->
     exists phase trace s0 s1 dt,
       phase ∈ PhaseNet.labels m /\ phase <> "N"%string
       /\ trace ∈ annotations
       /\ channel_matches (channel trace) ("PhaseNet_" +:+ phase) = true
       /\ (s0, s1) ∈ trigger_onset (data trace) (on phase) (on phase / 2)%R
       /\ times trace !! s0 = Some dt
       /\ p = (trace_id trace, starttime trace + dt, phase)).
  { intros picks p Hc.
    apply classify_aggregate_collect in Hc as (collected & Hcol & ->).
    rewrite sorted_Permutation.
    rewrite (collect_picks_elem_of m annotations argdict collected p Hcol).
    split; intros (phase & trace & s0 & s1 & dt & H);
      exists phase, trace, s0, s1, dt;
      [rewrite <- Hon|rewrite Hon]; exact H. }
  split; [exact Hmem|]. split; [|split].
  - unfold PhaseNet.classify_aggregate. rewrite fmap_is_Some.
    rewrite collect_picks_is_Some_iff.
    split; intros H phase trace s0 s1 Hph Hne Htr Hm Hs;
      apply (H phase trace s0 s1 Hph Hne Htr Hm);
      [by rewrite Hon|by rewrite <- Hon].
  - intros g Hfg.
    unfold PhaseNet.classify_aggregate, PhaseNet.collect_picks.
    do 2 f_equal. apply Forall_mapM_ext, Forall_forall. intros phase Hin.
    apply phase_picks_ext. intros Hne trace Htr. cbv zeta.
    rewrite Hon. by apply Hfg.
  - intros Hnone picks trace s0 s1 dt Hc HP Htr Hm Hs Hdt.
    apply (Hmem picks _ Hc). exists "P"%string, trace, s0, s1, dt.
    assert (HonP : on "P"%string = 0.3%R).
    { unfold on. change ("P" +:+ "_threshold") with "P_threshold"%string.
      by rewrite Hnone. }
    rewrite HonP. replace (0.3 / 2)%R with 0.15%R by lra.
    repeat split; done.
Qed.

(** X8. [classify_aggregate] returns if and only if every interval that it
    reads (for a label other than "N", on a trace selected for the label)
    starts at a sample for which the trace has a time offset; an interval
    that starts outside makes it raise. *)
Theorem classify_aggregate_returns_iff m annotations argdict :
  is_Some (classify_aggregate m annotations argdict)
  <-> forall phase trace s0 s1,
        phase ∈ PhaseNet.labels m -> phase <> "N"%string ->
        trace ∈ annotations ->
        channel_matches (channel trace) ("PhaseNet_" +:+ phase) = true ->
        (s0, s1) ∈ triggers_of argdict phase trace ->
        (s0 < length (times trace))%nat.
Proof.
  unfold PhaseNet.classify_aggregate. rewrite fmap_is_Some.
  apply collect_picks_is_Some_iff.
Qed.

(** X9. Where the trigger primitive reports nothing on the traces selected
    for the labels other than "N" (no annotation at all, in particular),
    [classify_aggregate] returns the empty list. *)
Theorem classify_aggregate_no_triggers m annotations argdict :
  (forall phase trace,
     phase ∈ PhaseNet.labels m -> phase <> "N"%string ->
     trace ∈ annotations ->
     channel_matches (channel trace) ("PhaseNet_" +:+ phase) = true ->
     triggers_of argdict phase trace = []) ->
  classify_aggregate m annotations argdict = Some [].
Proof.
  intros Hnone. unfold PhaseNet.classify_aggregate.
  destruct (proj2 (collect_picks_is_Some_iff m annotations argdict))
    as [l Hl].
  { intros phase trace s0 s1 Hph Hne Htr Hm Hs.
    rewrite (Hnone phase trace Hph Hne Htr Hm) in Hs.
    by apply elem_of_nil in Hs. }
  rewrite Hl. simpl. f_equal.
  destruct l as [|p l]; [done|]. exfalso.
  destruct (proj1 (collect_picks_elem_of m annotations argdict _ p Hl))
    as (phase & trace & s0 & s1 & dt & Hph & Hne & Htr & Hm & Hs & _);
    [by left|].
  rewrite (Hnone phase trace Hph Hne Htr Hm) in Hs.
  by apply elem_of_nil in Hs.
Qed.

(** X10. The result depends on the configuration only through the keys
    "<phase>_threshold" of the labels other than "N": two configurations
    that agree on these keys give the same result. *)
Theorem classify_aggregate_config_frame m annotations
    (argdict argdict' : gmap string R) :
  (forall phase, phase ∈ PhaseNet.labels m -> phase <> "N"%string ->
     argdict !! (phase +:+ "_threshold")
     = argdict' !! (phase +:+ "_threshold")) ->
  classify_aggregate m annotations argdict
  = classify_aggregate m annotations argdict'.
Proof.
  intros Hkeys.
  unfold PhaseNet.classify_aggregate, PhaseNet.collect_picks.
  do 2 f_equal. apply Forall_mapM_ext, Forall_forall. intros phase Hph.
  unfold PhaseNet.phase_picks.
  destruct (String.eqb_spec phase "N") as [->|Hne]; [done|].
  unfold PhaseNet.pick_threshold. by rewrite (Hkeys phase Hph Hne).
Qed.

End classify_more.

(** ** The further properties at concrete inputs *)

Lemma Conv1dSame_stride1_adds_two_witness :
  0 < 3 /\ 0 < 2
  /\ n_channels (mkTensor (2%nat, 5%nat) (fun _ _ => 0%R)) = 2%nat
  /\ exists y,
       Conv1dSame.forward
         (Conv1dSame.init 2 4 3 1 2
            (mkConvParams (fun _ _ _ => 0%R) (fun _ => 0%R)))
         (mkTensor (2%nat, 5%nat) (fun _ _ => 0%R)) = Some y
       /\ n_channels y = 4%nat
       /\ n_samples y
          = (n_samples (mkTensor (2%nat, 5%nat) (fun _ _ => 0%R)) + 2)%nat.
Proof.
  split; [lia|]. split; [lia|]. split; [reflexivity|].
  apply (Conv1dSame_stride1_adds_two 2 4 3 2
           (mkConvParams (fun _ _ _ => 0%R) (fun _ => 0%R))
           (mkTensor (2%nat, 5%nat) (fun _ _ => 0%R)));
    [lia|lia|reflexivity].
Defined.

Lemma Conv1dSame_stride4_ceil_witness :
  0 < 7 /\ 0 < 1 /\ Z.even (1 * (7 - 1)) = true
  /\ n_channels zero_window = 3%nat
  /\ (n_samples zero_window = 0%nat ->
      Conv1dSame.forward
        (Conv1dSame.init 3 11 7 4 1
           (mkConvParams (fun _ _ _ => 0%R) (fun _ => 0%R)))
        zero_window = None)
  /\ ((0 < n_samples zero_window)%nat ->
      exists y,
        Conv1dSame.forward
          (Conv1dSame.init 3 11 7 4 1
             (mkConvParams (fun _ _ _ => 0%R) (fun _ => 0%R)))
          zero_window = Some y
        /\ n_channels y = 11%nat
        /\ (4 * (n_samples y - 1) < n_samples zero_window
            <= 4 * n_samples y)%nat).
Proof.
  split; [lia|]. split; [lia|]. split; [reflexivity|].
  split; [reflexivity|].
  apply (Conv1dSame_stride4_ceil 3 11 7 1
           (mkConvParams (fun _ _ _ => 0%R) (fun _ => 0%R)) zero_window);
    [lia|lia|reflexivity|reflexivity].
Defined.

Lemma annotate_window_pre_standardised_witness :
  (0 < snd (np.shape ramp_window))%nat
  /\ np.item (np.mean (PhaseNet.annotate_window_pre ramp_window ∅))
       0%nat 0%nat = 0%R
  /\ np.item (np.std (PhaseNet.annotate_window_pre ramp_window ∅))
       0%nat 0%nat
     = if Req_dec_T (np.item (np.std ramp_window) 0%nat 0%nat) 0
       then 0%R else 1%R.
Proof.
  assert (Hn : (0 < snd (np.shape ramp_window))%nat) by (simpl; lia).
  split; [exact Hn|].
  exact (annotate_window_pre_standardised ramp_window ∅ 0%nat Hn).
Defined.

Lemma annotate_window_pre_gain_offset_witness :
  np.shape scaled_ramp_window = np.shape ramp_window
  /\ (forall i : nat, (0 < 2)%R)
  /\ (forall i j, (j < snd (np.shape ramp_window))%nat ->
        np.item scaled_ramp_window i j
        = (2 * np.item ramp_window i j + 1)%R)
  /\ np.array_eq (PhaseNet.annotate_window_pre scaled_ramp_window ∅)
                 (PhaseNet.annotate_window_pre ramp_window ∅).
Proof.
  assert (H1 : np.shape scaled_ramp_window = np.shape ramp_window)
    by reflexivity.
  assert (H2 : forall i : nat, (0 < 2)%R) by (intros; lra).
  assert (H3 : forall i j, (j < snd (np.shape ramp_window))%nat ->
                 np.item scaled_ramp_window i j
                 = (2 * np.item ramp_window i j + 1)%R)
    by (intros; reflexivity).
  split; [exact H1|]. split; [exact H2|]. split; [exact H3|].
  exact (annotate_window_pre_gain_offset ramp_window scaled_ramp_window ∅
           (fun _ => 2%R) (fun _ => 1%R) H1 H2 H3).
Defined.

Lemma classify_aggregate_picks_iff_witness :
  PhaseNet.classify_aggregate one_trigger String.eqb reference_model
    example_annotations ∅
  = Some [("NN.STA."%string, 1010, "P"%string);
          ("NN.STA."%string, 2010, "S"%string)]
  /\ (("NN.STA."%string, 1010, "P"%string)
       ∈ [("NN.STA."%string, 1010, "P"%string);
          ("NN.STA."%string, 2010, "S"%string)]
      <-> exists phase trace s0 s1 dt,
            phase ∈ PhaseNet.labels reference_model
            /\ phase <> "N"%string
            /\ trace ∈ example_annotations
            /\ String.eqb (channel trace) ("PhaseNet_" +:+ phase) = true
            /\ (s0, s1) ∈ one_trigger (data trace)
                             (PhaseNet.pick_threshold ∅ phase)
                             (PhaseNet.pick_threshold ∅ phase / 2)%R
            /\ times trace !! s0 = Some dt
            /\ ("NN.STA."%string, 1010, "P"%string)
               = (network trace +:+ "." +:+ station trace +:+ "."
                  +:+ location trace, starttime trace + dt, phase)).
Proof.
  assert (Hrun :
    PhaseNet.classify_aggregate one_trigger String.eqb reference_model
      example_annotations ∅
    = Some [("NN.STA."%string, 1010, "P"%string);
            ("NN.STA."%string, 2010, "S"%string)])
    by (vm_compute; reflexivity).
  split; [exact Hrun|].
  exact (classify_aggregate_picks_iff one_trigger String.eqb reference_model
           example_annotations ∅ _ ("NN.STA."%string, 1010, "P"%string)
           Hrun).
Defined.

Lemma classify_aggregate_length_witness :
  PhaseNet.classify_aggregate one_trigger String.eqb reference_model
    example_annotations ∅
  = Some [("NN.STA."%string, 1010, "P"%string);
          ("NN.STA."%string, 2010, "S"%string)]
  /\ length [("NN.STA."%string, 1010, "P"%string);
             ("NN.STA."%string, 2010, "S"%string)]
     = sum_list
         ((fun phase =>
             if String.eqb phase "N" then 0%nat
             else sum_list
                    ((fun trace =>
                        length (one_trigger (data trace)
                                  (PhaseNet.pick_threshold ∅ phase)
                                  (PhaseNet.pick_threshold ∅ phase / 2)%R))
                     <$> PhaseNet.select String.eqb example_annotations
                           ("PhaseNet_" +:+ phase)))
          <$> PhaseNet.labels reference_model).
Proof.
  assert (Hrun :
    PhaseNet.classify_aggregate one_trigger String.eqb reference_model
      example_annotations ∅
    = Some [("NN.STA."%string, 1010, "P"%string);
            ("NN.STA."%string, 2010, "S"%string)])
    by (vm_compute; reflexivity).
  split; [exact Hrun|].
  exact (classify_aggregate_length one_trigger String.eqb reference_model
           example_annotations ∅ _ Hrun).
Defined.

Lemma classify_aggregate_no_triggers_witness :
  (forall phase trace,
     phase ∈ PhaseNet.labels reference_model -> phase <> "N"%string ->
     trace ∈ example_annotations ->
     String.eqb (channel trace) ("PhaseNet_" +:+ phase) = true ->
     no_trigger (data trace) (PhaseNet.pick_threshold ∅ phase)
       (PhaseNet.pick_threshold ∅ phase / 2)%R = [])
  /\ PhaseNet.classify_aggregate no_trigger String.eqb reference_model
       example_annotations ∅ = Some [].
Proof.
  assert (Hnone : forall phase trace,
     phase ∈ PhaseNet.labels reference_model -> phase <> "N"%string ->
     trace ∈ example_annotations ->
     String.eqb (channel trace) ("PhaseNet_" +:+ phase) = true ->
     no_trigger (data trace) (PhaseNet.pick_threshold ∅ phase)
       (PhaseNet.pick_threshold ∅ phase / 2)%R = [])
    by (intros; reflexivity).
  split; [exact Hnone|].
  exact (classify_aggregate_no_triggers no_trigger String.eqb
           reference_model example_annotations ∅ Hnone).
Defined.

Lemma classify_aggregate_config_frame_witness :
  (forall phase,
     phase ∈ PhaseNet.labels reference_model -> phase <> "N"%string ->
     ({["P_threshold"%string := 0.5%R]} : gmap string R)
       !! (phase +:+ "_threshold")
     = ({["P_threshold"%string := 0.5%R; "overlap"%string := 250%R]}
          : gmap string R)
         !! (phase +:+ "_threshold"))
  /\ PhaseNet.classify_aggregate one_trigger String.eqb reference_model
       example_annotations {["P_threshold"%string := 0.5%R]}
     = PhaseNet.classify_aggregate one_trigger String.eqb reference_model
         example_annotations
         {["P_threshold"%string := 0.5%R; "overlap"%string := 250%R]}.
Proof.
  assert (Hkeys : forall phase,
     phase ∈ PhaseNet.labels reference_model -> phase <> "N"%string ->
     ({["P_threshold"%string := 0.5%R]} : gmap string R)
       !! (phase +:+ "_threshold")
     = ({["P_threshold"%string := 0.5%R; "overlap"%string := 250%R]}
          : gmap string R)
         !! (phase +:+ "_threshold")).
  { intros phase Hph Hne.
    apply elem_of_cons in Hph as [->|Hph]; [done|].
    apply elem_of_cons in Hph as [->|Hph]; [vm_compute; reflexivity|].
    apply elem_of_cons in Hph as [->|Hph]; [vm_compute; reflexivity|].
    by apply elem_of_nil in Hph. }
  split; [exact Hkeys|].
  exact (classify_aggregate_config_frame one_trigger String.eqb
           reference_model example_annotations _ _ Hkeys).
Defined.
